(** * rocket-app: the message-ingestion sequencer and the rocket statistics

    A shallow embedding of
      - services/message-ingestion/src/services/message-processor.service.ts
        (processMessage, processBufferedMessages, applyStateChange),
      - shared/repositories/{Rocket,Message,BufferedMessage}Repository.ts,
      - RocketService.getRocketStatistics of the rocket-api service,
    followed by the properties of the sequencer that the specification
    states.

    The three Prisma tables are finite maps keyed by their unique columns;
    the asynchronous, exception-throwing repository calls are computations
    in a state-and-exception monad whose store survives a thrown error
    (there is no transaction around a request). *)

From Stdlib Require Import ZArith QArith Qround Lia.
From stdpp Require Import gmap strings list fin_maps.

Local Open Scope Z_scope.

(** ** JavaScript numbers

    The speeds and the [by] of a payload are JavaScript numbers, that is
    IEEE 754 doubles, and the code adds and subtracts them as such.  The
    ones met here hold integers, and the model keeps them as integers of
    [Z]; a sum or a difference is the exact one rounded to the nearest
    double, a tie going to the even significand. *)

(** [a] rounded to the nearest multiple of [2^e], a tie going to the even
    multiple. *)
Definition roundToEven (a e : Z) : Z :=
  let q := a / 2 ^ e in
  let r := a mod 2 ^ e in
  let half := 2 ^ (e - 1) in
  if r <? half then q * 2 ^ e
  else if half <? r then (q + 1) * 2 ^ e
  else (if Z.even q then q else q + 1) * 2 ^ e.

(** The double nearest to the integer [z]: [z] itself below 2^53 in
    magnitude, and [z] rounded to 53 significant bits from there on.
    (Integers of magnitude 2^1024 and more, whose double is [Infinity], are
    not told apart.) *)
Definition toNumber (z : Z) : Z :=
  if Z.abs z <? 2 ^ 53 then z
  else Z.sgn z * roundToEven (Z.abs z) (Z.log2 (Z.abs z) - 52).

(** [Number.MAX_SAFE_INTEGER]. *)
Definition MAX_SAFE_INTEGER : Z := 2 ^ 53 - 1.

(** [x + y] and [x - y]. *)
Definition Number_add (x y : Z) : Z := toNumber (x + y).
Definition Number_sub (x y : Z) : Z := toNumber (x - y).

(** ** Data model (shared/types/messages.types.ts) *)

Inductive MessageType :=
  | ROCKET_LAUNCHED
  | ROCKET_SPEED_INCREASED
  | ROCKET_SPEED_DECREASED
  | ROCKET_EXPLODED
  | ROCKET_MISSION_CHANGED.

Inductive RocketStatus := ACTIVE | EXPLODED.

#[global] Instance MessageType_eq_dec : EqDecision MessageType.
Proof. solve_decision. Defined.

#[global] Instance RocketStatus_eq_dec : EqDecision RocketStatus.
Proof. solve_decision. Defined.

(** [messageTime] is the instant denoted by the ISO-8601 string of the wire
    format (milliseconds since the epoch): the code only ever passes it
    through [new Date(..)] and [toISOString()]. *)
Record MessageMetadata := {
  channel : string;
  messageNumber : Z;
  messageTime : Z;
  messageType : MessageType;
}.

Inductive MessagePayload :=
  | RocketLaunchedPayload (type : string) (launchSpeed : Z) (mission : string)
  | RocketSpeedIncreasedPayload (by_ : Z)
  | RocketSpeedDecreasedPayload (by_ : Z)
  | RocketExplodedPayload (reason : string)
  | RocketMissionChangedPayload (newMission : string).

Record IncomingMessage := {
  metadata : MessageMetadata;
  message : MessagePayload;
}.

(** A row of the [Rocket] table.  The table is keyed by the unique column
    [channel], which is therefore the key of the map and not a field; the
    database-generated columns [id], [createdAt] and [updatedAt] are not
    modelled. *)
Record Rocket := {
  rocketType : string;
  currentSpeed : Z;
  rocketMission : string;
  status : RocketStatus;
  explosionReason : option string;
  lastMessageNumber : Z;
  lastMessageTime : Z;
}.

(** [UpdateRocketData]: every field is optional, an absent field is left as
    it is by [prisma.rocket.update]. *)
Record UpdateRocketData := {
  upd_currentSpeed : option Z;
  upd_mission : option string;
  upd_status : option RocketStatus;
  upd_explosionReason : option (option string);
  upd_lastMessageNumber : option Z;
  upd_lastMessageTime : option Z;
}.

(** A row of the [Message] and of the [BufferedMessage] table
    ([CreateMessageData], [CreateBufferedMessageData]).  Both tables are
    unique on (channel, messageNumber), the key of the map; the payload
    column holds [JSON.stringify(message)], which [JSON.parse] gives back
    unchanged. *)
Record CreateMessageData := {
  rowTime : Z;
  rowType : MessageType;
  rowPayload : MessagePayload;
}.

Record Store := {
  rockets : gmap string Rocket;
  messages : gmap (string * Z) CreateMessageData;
  bufferedMessages : gmap (string * Z) CreateMessageData;
}.

Definition emptyStore : Store :=
  {| rockets := ∅; messages := ∅; bufferedMessages := ∅ |}.

Definition set_rockets (f : gmap string Rocket → gmap string Rocket)
    (st : Store) : Store :=
  {| rockets := f (rockets st);
     messages := messages st;
     bufferedMessages := bufferedMessages st |}.

Definition set_messages
    (f : gmap (string * Z) CreateMessageData → gmap (string * Z) CreateMessageData)
    (st : Store) : Store :=
  {| rockets := rockets st;
     messages := f (messages st);
     bufferedMessages := bufferedMessages st |}.

Definition set_buffered
    (f : gmap (string * Z) CreateMessageData → gmap (string * Z) CreateMessageData)
    (st : Store) : Store :=
  {| rockets := rockets st;
     messages := messages st;
     bufferedMessages := f (bufferedMessages st) |}.

(** ** Effects: store passing with exceptions *)

Inductive Error :=
  | RocketNotFound (ch : string)      (* thrown by [ensureRocket] *)
  | UniqueConstraint                  (* Prisma: create on an existing key *)
  | RecordNotFound                    (* Prisma: update/delete of no row *)
  | PayloadShape.                     (* the payload is not of the asserted type *)

Inductive Result (A : Type) :=
  | Ok (a : A)
  | Err (e : Error).
Arguments Ok {A} a.
Arguments Err {A} e.

Definition M (A : Type) : Type := Store → Store * Result A.

Definition ret {A} (a : A) : M A := λ st, (st, Ok a).
Definition throw {A} (e : Error) : M A := λ st, (st, Err e).
Definition bind {A B} (c : M A) (k : A → M B) : M B :=
  λ st, match c st with
        | (st', Ok a) => k a st'
        | (st', Err e) => (st', Err e)
        end.

(** [try { c } catch (error) { logError(..) }] without a rethrow. *)
Definition catch_and_log (c : M unit) : M unit :=
  λ st, match c st with
        | (st', Ok _) => (st', Ok tt)
        | (st', Err _) => (st', Ok tt)
        end.

Notation "'let!' x ':=' c 'in' k" := (bind c (λ x, k))
  (at level 10, x name, c at level 100, k at level 200).

(** ** Repositories

    Every repository method logs and rethrows whatever Prisma throws.  In
    the model a call fails where the data decides it: [create] on a key
    that exists, [update] and [delete] of a row that does not.  A failure
    of the database itself (connection, storage) can strike any call and
    is not part of the model: the store holds the rows, not the health of
    the database. *)

Module RocketRepository.

Definition findByChannel (ch : string) : M (option Rocket) :=
  λ st, (st, Ok (rockets st !! ch)).

Definition create (ch : string) (data : Rocket) : M Rocket :=
  λ st, match rockets st !! ch with
        | Some _ => (st, Err UniqueConstraint)
        | None => (set_rockets (insert ch data) st, Ok data)
        end.

Definition applyUpdate (data : UpdateRocketData) (r : Rocket) : Rocket :=
  {| rocketType := rocketType r;
     currentSpeed := default (currentSpeed r) (upd_currentSpeed data);
     rocketMission := default (rocketMission r) (upd_mission data);
     status := default (status r) (upd_status data);
     explosionReason := default (explosionReason r) (upd_explosionReason data);
     lastMessageNumber := default (lastMessageNumber r) (upd_lastMessageNumber data);
     lastMessageTime := default (lastMessageTime r) (upd_lastMessageTime data) |}.

Definition update (ch : string) (data : UpdateRocketData) : M Rocket :=
  λ st, match rockets st !! ch with
        | None => (st, Err RecordNotFound)
        | Some r =>
            let r' := applyUpdate data r in
            (set_rockets (insert ch r') st, Ok r')
        end.

End RocketRepository.

Module MessageRepository.

Definition findUnique (ch : string) (n : Z) : M (option CreateMessageData) :=
  λ st, (st, Ok (messages st !! (ch, n))).

Definition create (ch : string) (n : Z) (data : CreateMessageData) : M unit :=
  λ st, match messages st !! (ch, n) with
        | Some _ => (st, Err UniqueConstraint)
        | None => (set_messages (insert (ch, n) data) st, Ok tt)
        end.

End MessageRepository.

Module BufferedMessageRepository.

Definition findUnique (ch : string) (n : Z) : M (option CreateMessageData) :=
  λ st, (st, Ok (bufferedMessages st !! (ch, n))).

Definition create (ch : string) (n : Z) (data : CreateMessageData) : M unit :=
  λ st, match bufferedMessages st !! (ch, n) with
        | Some _ => (st, Err UniqueConstraint)
        | None => (set_buffered (insert (ch, n) data) st, Ok tt)
        end.

(** [delete(buffered.id)]: the id identifies the row that [findUnique]
    returned, that is the row under its (channel, messageNumber). *)
Definition delete (id : string * Z) : M unit :=
  λ st, match bufferedMessages st !! id with
        | None => (st, Err RecordNotFound)
        | Some _ => (set_buffered (base.delete id) st, Ok tt)
        end.

End BufferedMessageRepository.

(** ** MessageProcessorService *)

(** The type assertions [message as { ... }] of [applyStateChange].  A
    payload of another shape does not inhabit the asserted TypeScript type,
    and the model stops such a call with [PayloadShape].  At run time the
    assertion checks nothing: the code goes on with [undefined] fields, and
    what Prisma makes of them is outside the model.  The properties below
    that depend on this branch are stated for messages whose payload has
    the shape of their type ([wellShapedMessage]). *)
Definition asByPayload (p : MessagePayload) : M Z :=
  match p with
  | RocketSpeedIncreasedPayload b | RocketSpeedDecreasedPayload b => ret b
  | _ => throw PayloadShape
  end.

Definition asReasonPayload (p : MessagePayload) : M string :=
  match p with
  | RocketExplodedPayload r => ret r
  | _ => throw PayloadShape
  end.

Definition asMissionPayload (p : MessagePayload) : M string :=
  match p with
  | RocketMissionChangedPayload m => ret m
  | _ => throw PayloadShape
  end.

Definition ensureRocket (md : MessageMetadata) (r : option Rocket) : M Rocket :=
  match r with
  | None => throw (RocketNotFound (channel md))
  | Some r => ret r
  end.

(** The [switch] on [messageType].  Its [default] branch ("Unknown message
    type") has no counterpart here: [MessageType] is the closed enum. *)
Definition applyStateChange (rocket : option Rocket) (im : IncomingMessage)
    : M Rocket :=
  let md := metadata im in
  match messageType md with
  | ROCKET_LAUNCHED =>
      match rocket with
      | Some r => ret r
      | None =>
          match message im with
          | RocketLaunchedPayload t s m =>
              RocketRepository.create (channel md)
                {| rocketType := t;
                   currentSpeed := s;
                   rocketMission := m;
                   status := ACTIVE;
                   explosionReason := None;
                   lastMessageNumber := messageNumber md;
                   lastMessageTime := messageTime md |}
          | _ => throw PayloadShape
          end
      end
  | ROCKET_SPEED_INCREASED =>
      let! existingRocket := ensureRocket md rocket in
      match status existingRocket with
      | EXPLODED => ret existingRocket
      | ACTIVE =>
          let! b := asByPayload (message im) in
          let newSpeed := Number_add (currentSpeed existingRocket) b in
          RocketRepository.update (channel md)
            {| upd_currentSpeed := Some newSpeed;
               upd_mission := None; upd_status := None;
               upd_explosionReason := None;
               upd_lastMessageNumber := Some (messageNumber md);
               upd_lastMessageTime := Some (messageTime md) |}
      end
  | ROCKET_SPEED_DECREASED =>
      let! existingRocket := ensureRocket md rocket in
      match status existingRocket with
      | EXPLODED => ret existingRocket
      | ACTIVE =>
          let! b := asByPayload (message im) in
          let newSpeed := Z.max 0 (Number_sub (currentSpeed existingRocket) b) in
          RocketRepository.update (channel md)
            {| upd_currentSpeed := Some newSpeed;
               upd_mission := None; upd_status := None;
               upd_explosionReason := None;
               upd_lastMessageNumber := Some (messageNumber md);
               upd_lastMessageTime := Some (messageTime md) |}
      end
  | ROCKET_EXPLODED =>
      let! existingRocket := ensureRocket md rocket in
      let! r := asReasonPayload (message im) in
      RocketRepository.update (channel md)
        {| upd_currentSpeed := Some 0;
           upd_mission := None;
           upd_status := Some EXPLODED;
           upd_explosionReason := Some (Some r);
           upd_lastMessageNumber := Some (messageNumber md);
           upd_lastMessageTime := Some (messageTime md) |}
  | ROCKET_MISSION_CHANGED =>
      let! existingRocket := ensureRocket md rocket in
      match status existingRocket with
      | EXPLODED => ret existingRocket
      | ACTIVE =>
          let! m := asMissionPayload (message im) in
          RocketRepository.update (channel md)
            {| upd_currentSpeed := None;
               upd_mission := Some m;
               upd_status := None;
               upd_explosionReason := None;
               upd_lastMessageNumber := Some (messageNumber md);
               upd_lastMessageTime := Some (messageTime md) |}
      end
  end.

(** The row written to [Message] or [BufferedMessage] for a message. *)
Definition rowOf (im : IncomingMessage) : CreateMessageData :=
  {| rowTime := messageTime (metadata im);
     rowType := messageType (metadata im);
     rowPayload := message im |}.

(** The [IncomingMessage] that [processBufferedMessages] reconstructs from
    a buffered row. *)
Definition reconstruct (ch : string) (n : Z) (b : CreateMessageData)
    : IncomingMessage :=
  {| metadata := {| channel := ch; messageNumber := n;
                    messageTime := rowTime b; messageType := rowType b |};
     message := rowPayload b |}.

(** [processBufferedMessages] calls itself once per buffered row it has
    deleted; [fuel] bounds the number of nested calls. *)
Fixpoint drain (fuel : nat) (ch : string) (expectedMessageNumber : Z)
    : M unit :=
  match fuel with
  | O => ret tt
  | S fuel' =>
      catch_and_log (
        let! buffered :=
          BufferedMessageRepository.findUnique ch expectedMessageNumber in
        match buffered with
        | None => ret tt
        | Some b =>
            let incomingMessage := reconstruct ch expectedMessageNumber b in
            let! rocket := RocketRepository.findByChannel ch in
            match rocket with
            | None =>
                let! _u := BufferedMessageRepository.delete
                            (ch, expectedMessageNumber) in
                ret tt
            | Some r =>
                let! updatedRocket := applyStateChange (Some r) incomingMessage in
                let! _u := MessageRepository.create ch expectedMessageNumber b in
                let! _u := BufferedMessageRepository.delete
                            (ch, expectedMessageNumber) in
                drain fuel' ch (expectedMessageNumber + 1)
            end
        end)
  end.

Definition processBufferedMessages (ch : string) (expectedMessageNumber : Z)
    : M unit :=
  λ st, drain (S (size (bufferedMessages st))) ch expectedMessageNumber st.

(** [processMessage] returns nothing; the model returns which of its five
    exits was taken (each one is marked by its own log call in the code). *)
Inductive Outcome :=
  | DuplicateIgnored          (* logMessageDuplicate *)
  | BufferedDuplicateIgnored  (* 'Duplicate buffered message, ignoring' *)
  | OutOfOrderAudited         (* logMessageOutOfOrder *)
  | Buffered                  (* 'Message buffered successfully' *)
  | Processed.                (* logMessageProcessed *)

(** The tail of [processMessage] from "Apply state change" on. *)
Definition applyAndDrain (rocket : option Rocket) (im : IncomingMessage)
    : M Outcome :=
  let md := metadata im in
  let! rocket' := applyStateChange rocket im in
  let! _u := MessageRepository.create (channel md) (messageNumber md) (rowOf im) in
  let! _u := processBufferedMessages (channel md) (messageNumber md + 1) in
  ret Processed.

(** The [catch] of [processMessage] logs and rethrows, so an error of the
    body is the error of the call. *)
Definition processMessage (im : IncomingMessage) : M Outcome :=
  let md := metadata im in
  let! existingMessage :=
    MessageRepository.findUnique (channel md) (messageNumber md) in
  match existingMessage with
  | Some _ => ret DuplicateIgnored
  | None =>
      let! bufferedDuplicate :=
        BufferedMessageRepository.findUnique (channel md) (messageNumber md) in
      match bufferedDuplicate with
      | Some _ => ret BufferedDuplicateIgnored
      | None =>
          let! rocket := RocketRepository.findByChannel (channel md) in
          match rocket with
          | Some r =>
              if messageNumber md <? lastMessageNumber r then
                let! _u := MessageRepository.create
                            (channel md) (messageNumber md) (rowOf im) in
                ret OutOfOrderAudited
              else if messageNumber md >? lastMessageNumber r + 1 then
                let! _u := BufferedMessageRepository.create
                            (channel md) (messageNumber md) (rowOf im) in
                ret Buffered
              else applyAndDrain rocket im
          | None => applyAndDrain rocket im
          end
      end
  end.

(** Submitting a list of messages one after the other; a failed submission
    keeps the store it left behind, as a failed request does. *)
Definition submitAll (ims : list IncomingMessage) (st : Store) : Store :=
  fold_left (λ s im, fst (processMessage im s)) ims st.

(** The entity of a channel. *)
Definition entity (ch : string) (st : Store) : option Rocket :=
  rockets st !! ch.

(** ** Pure summaries used in the statements *)

(** The payload has the shape that [applyStateChange] asserts for the
    message type (both speed payloads are the structural type
    [{ by: number }]). *)
Definition wellShaped (t : MessageType) (p : MessagePayload) : bool :=
  match t, p with
  | ROCKET_LAUNCHED, RocketLaunchedPayload _ _ _ => true
  | ROCKET_SPEED_INCREASED, RocketSpeedIncreasedPayload _ => true
  | ROCKET_SPEED_INCREASED, RocketSpeedDecreasedPayload _ => true
  | ROCKET_SPEED_DECREASED, RocketSpeedIncreasedPayload _ => true
  | ROCKET_SPEED_DECREASED, RocketSpeedDecreasedPayload _ => true
  | ROCKET_EXPLODED, RocketExplodedPayload _ => true
  | ROCKET_MISSION_CHANGED, RocketMissionChangedPayload _ => true
  | _, _ => false
  end.

Definition wellShapedMessage (im : IncomingMessage) : bool :=
  wellShaped (messageType (metadata im)) (message im).

(** The row that [applyStateChange] leaves for an entity that exists: the
    row it passes to [update], or the row itself where it returns
    [existingRocket] (or [rocket]) without a write. *)
Definition transition (r : Rocket) (im : IncomingMessage) : Rocket :=
  let md := metadata im in
  match messageType md, status r, message im with
  | ROCKET_SPEED_INCREASED, ACTIVE,
    (RocketSpeedIncreasedPayload b | RocketSpeedDecreasedPayload b) =>
      RocketRepository.applyUpdate
        {| upd_currentSpeed := Some (Number_add (currentSpeed r) b);
           upd_mission := None; upd_status := None;
           upd_explosionReason := None;
           upd_lastMessageNumber := Some (messageNumber md);
           upd_lastMessageTime := Some (messageTime md) |} r
  | ROCKET_SPEED_DECREASED, ACTIVE,
    (RocketSpeedIncreasedPayload b | RocketSpeedDecreasedPayload b) =>
      RocketRepository.applyUpdate
        {| upd_currentSpeed := Some (Z.max 0 (Number_sub (currentSpeed r) b));
           upd_mission := None; upd_status := None;
           upd_explosionReason := None;
           upd_lastMessageNumber := Some (messageNumber md);
           upd_lastMessageTime := Some (messageTime md) |} r
  | ROCKET_EXPLODED, _, RocketExplodedPayload reason =>
      RocketRepository.applyUpdate
        {| upd_currentSpeed := Some 0;
           upd_mission := None; upd_status := Some EXPLODED;
           upd_explosionReason := Some (Some reason);
           upd_lastMessageNumber := Some (messageNumber md);
           upd_lastMessageTime := Some (messageTime md) |} r
  | ROCKET_MISSION_CHANGED, ACTIVE, RocketMissionChangedPayload m =>
      RocketRepository.applyUpdate
        {| upd_currentSpeed := None;
           upd_mission := Some m; upd_status := None;
           upd_explosionReason := None;
           upd_lastMessageNumber := Some (messageNumber md);
           upd_lastMessageTime := Some (messageTime md) |} r
  | _, _, _ => r
  end.

(** The store after one buffered row [b] of number [n] has been drained
    against the entity [r]: entity written, row audited, row unbuffered. *)
Definition drained (ch : string) (n : Z) (b : CreateMessageData) (r : Rocket)
    (st : Store) : Store :=
  set_buffered (delete (ch, n))
    (set_messages (insert (ch, n) b)
       (set_rockets (insert ch (transition r (reconstruct ch n b))) st)).


(** A message writes the entity when it is applied to an entity of status
    [s]: every kind but a launch on an active rocket, only an explosion on
    an exploded one. *)
Definition writesEntity (s : RocketStatus) (t : MessageType) : bool :=
  match t, s with
  | ROCKET_LAUNCHED, _ => false
  | ROCKET_EXPLODED, _ => true
  | _, ACTIVE => true
  | _, EXPLODED => false
  end.

Definition statusAfter (s : RocketStatus) (t : MessageType) : RocketStatus :=
  match t with ROCKET_EXPLODED => EXPLODED | _ => s end.

(** Messages of channel [ch] numbered [n], [n+1], ..., each with the
    payload of its type. *)
Fixpoint followUps (ch : string) (n : Z) (ims : list IncomingMessage) : bool :=
  match ims with
  | [] => true
  | im :: rest =>
      bool_decide (channel (metadata im) = ch)
      && bool_decide (messageNumber (metadata im) = n)
      && wellShapedMessage im
      && followUps ch (n + 1) rest
  end.

(** None of the messages writes an entity of status [s]. *)
Definition allIgnored (s : RocketStatus) (ims : list IncomingMessage) : bool :=
  forallb (λ im, negb (writesEntity s (messageType (metadata im)))) ims.

(** Applied in this order to an entity of status [s], the messages write
    the entity up to some point and not at all from there on: no message
    that writes the entity comes after one that does not. *)
Fixpoint settles (s : RocketStatus) (ims : list IncomingMessage) : bool :=
  match ims with
  | [] => true
  | im :: rest =>
      if writesEntity s (messageType (metadata im))
      then settles (statusAfter s (messageType (metadata im))) rest
      else allIgnored s rest
  end.

(** The number of messages at the head of the list that write the entity. *)
Fixpoint writingPrefix (s : RocketStatus) (ims : list IncomingMessage) : nat :=
  match ims with
  | [] => 0
  | im :: rest =>
      if writesEntity s (messageType (metadata im))
      then S (writingPrefix (statusAfter s (messageType (metadata im))) rest)
      else 0
  end.

(** A launch numbered 1 followed by messages numbered 2, 3, ..., no
    message that writes the entity coming after one that does not. *)
Definition launchSequence (ch : string) (first : IncomingMessage)
    (rest : list IncomingMessage) : bool :=
  bool_decide (channel (metadata first) = ch)
  && bool_decide (messageNumber (metadata first) = 1)
  && bool_decide (messageType (metadata first) = ROCKET_LAUNCHED)
  && wellShapedMessage first
  && followUps ch 2 rest
  && settles ACTIVE rest.

(** No row of any table belongs to the channel. *)
Definition freshChannel (ch : string) (st : Store) : Prop :=
  rockets st !! ch = None
  ∧ (∀ n, messages st !! (ch, n) = None)
  ∧ (∀ n, bufferedMessages st !! (ch, n) = None).

(** The row that [applyStateChange] creates for a launch. *)
Definition launched (im : IncomingMessage) (t : string) (s : Z) (m : string)
    : Rocket :=
  {| rocketType := t;
     currentSpeed := s;
     rocketMission := m;
     status := ACTIVE;
     explosionReason := None;
     lastMessageNumber := messageNumber (metadata im);
     lastMessageTime := messageTime (metadata im) |}.

(** The entity after the launch row [r0] and the first [k] follow-ups. *)
Definition entityAfter (r0 : Rocket) (rest : list IncomingMessage) (k : nat)
    : Rocket :=
  foldl transition r0 (take k rest).

(** The position among the follow-ups of the message numbered [2 + i]. *)
Definition followUpIndex (im : IncomingMessage) : nat :=
  Z.to_nat (messageNumber (metadata im) - 2).

(** The tables of channel [ch] while the follow-ups whose positions are in
    [sent] have been submitted and the first [k] of them have been applied:
    the entity is [entityAfter k], nothing from position [k] on is audited,
    and the rows buffered from position [k] on are those that were sent. *)
Record Draining (ch : string) (r0 : Rocket) (rest : list IncomingMessage)
    (sent : gset nat) (k : nat) (st : Store) : Prop := {
  draining_bound : (k ≤ length rest)%nat;
  draining_entity : rockets st !! ch = Some (entityAfter r0 rest k);
  draining_applied : ∀ i : nat, (i < k)%nat → i ∈ sent;
  draining_sent : ∀ i : nat, i ∈ sent → (i < length rest)%nat;
  draining_messages :
    ∀ i : nat, (k ≤ i)%nat → messages st !! (ch, 2 + Z.of_nat i) = None;
  draining_buffered :
    ∀ i : nat, (k ≤ i)%nat →
      bufferedMessages st !! (ch, 2 + Z.of_nat i)
      = if decide (i ∈ sent) then rowOf <$> rest !! i else None;
}.

(** The same between two submissions: the next position has not been
    sent, or a message that did not write the entity has been applied, after
    which the last-applied number stays behind and nothing more is
    applied. *)
Definition Sequenced (ch : string) (r0 : Rocket) (rest : list IncomingMessage)
    (sent : gset nat) (k : nat) (st : Store) : Prop :=
  Draining ch r0 rest sent k st
  ∧ (k ∉ sent ∨ (writingPrefix (status r0) rest < k)%nat).

(** The entity table [m'] still holds every exploded rocket of [m], with
    the type, speed, mission and status it had. *)
Definition keepsExploded (m m' : gmap string Rocket) : Prop :=
  ∀ ch r, m !! ch = Some r → status r = EXPLODED → currentSpeed r = 0 →
    ∃ r', m' !! ch = Some r'
          ∧ rocketType r' = rocketType r
          ∧ currentSpeed r' = currentSpeed r
          ∧ rocketMission r' = rocketMission r
          ∧ status r' = EXPLODED.

(** Every exploded rocket has speed 0. *)
Definition explodedAtRest (m : gmap string Rocket) : Prop :=
  ∀ ch r, m !! ch = Some r → status r = EXPLODED → currentSpeed r = 0.

(** No buffered message has an audit row. *)
Definition bufferUnaudited (st : Store) : Prop :=
  ∀ k, is_Some (bufferedMessages st !! k) → messages st !! k = None.

(** ** RocketService.getRocketStatistics *)

(** The [where] argument of [count] and [getAverageSpeed]: [undefined] or
    [{ status }]. *)
Definition matchesWhere (where_ : option RocketStatus) (r : Rocket) : bool :=
  match where_ with
  | None => true
  | Some s => bool_decide (status r = s)
  end.

Definition selectRockets (where_ : option RocketStatus) (st : Store)
    : list Rocket :=
  filter (λ r, matchesWhere where_ r = true) ((map_to_list (rockets st)).*2).

Definition sumZ (l : list Z) : Z := foldr Z.add 0 l.

(** [prisma.rocket.aggregate({ _avg: { currentSpeed: true }, where })]:
    [null] when no row is selected.  The average is the exact quotient. *)
Definition aggregateAvg (l : list Z) : option Q :=
  match l with
  | [] => None
  | _ => Some (inject_Z (sumZ l) / inject_Z (Z.of_nat (length l)))%Q
  end.

Module RocketStatistics.

Definition count (where_ : option RocketStatus) (st : Store) : Z :=
  Z.of_nat (length (selectRockets where_ st)).

(** [result._avg.currentSpeed || 0]: [null] and [0] both give [0]. *)
Definition getAverageSpeed (where_ : option RocketStatus) (st : Store) : Q :=
  default 0%Q (aggregateAvg (currentSpeed <$> selectRockets where_ st)).

End RocketStatistics.

(** [Math.round]: the integer nearest to the argument, a tie going up. *)
Definition Math_round (x : Q) : Z := Qfloor (x + (1 # 2))%Q.

Record Statistics := {
  total : Z;
  active : Z;
  exploded : Z;
  averageSpeed : Z;
}.

Definition getRocketStatistics (st : Store) : Statistics :=
  {| total := RocketStatistics.count None st;
     active := RocketStatistics.count (Some ACTIVE) st;
     exploded := RocketStatistics.count (Some EXPLODED) st;
     averageSpeed :=
       Math_round (RocketStatistics.getAverageSpeed (Some ACTIVE) st) |}.


(** ** MessageController.receiveMessage *)

(** The status code of the response: 202 when [processMessage] returns,
    500 when it throws.  (The validation middleware, which answers 400, runs
    before the controller.) *)
Definition receiveMessage (im : IncomingMessage) (st : Store) : Store * Z :=
  match processMessage im st with
  | (st', Ok _) => (st', 202)
  | (st', Err _) => (st', 500)
  end.

(** ** The payload schemas of the validation middleware *)

Definition nonEmpty (s : string) : bool := negb (String.eqb s "").

(** [RocketLaunchedSchema], [RocketSpeedIncreasedSchema],
    [RocketSpeedDecreasedSchema], [RocketExplodedSchema] and
    [RocketMissionChangedSchema]; the [message] of a request is accepted
    when it parses under one of them, whatever the [messageType]. *)
Definition messageSchema (p : MessagePayload) : bool :=
  match p with
  | RocketLaunchedPayload t s m => nonEmpty t && (0 <=? s) && nonEmpty m
  | RocketSpeedIncreasedPayload b => 0 <? b
  | RocketSpeedDecreasedPayload b => 0 <? b
  | RocketExplodedPayload r => nonEmpty r
  | RocketMissionChangedPayload m => nonEmpty m
  end.

(** ** Predicates on stores used in the statements *)

(** Every rocket of the store satisfies [P], and every buffered row, read
    back as the message it was made from, satisfies [Q]. *)
Definition storeSatisfies (P : Rocket → Prop) (Q : IncomingMessage → Prop)
    (st : Store) : Prop :=
  (∀ ch r, rockets st !! ch = Some r → P r)
  ∧ (∀ ch n b, bufferedMessages st !! (ch, n) = Some b → Q (reconstruct ch n b)).

(** The terminal-reason is present exactly on exploded rockets, and an
    exploded rocket has speed 0. *)
Definition rocketConsistent (r : Rocket) : Prop :=
  match status r with
  | ACTIVE => explosionReason r = None
  | EXPLODED => is_Some (explosionReason r) ∧ currentSpeed r = 0
  end.

(** The entity table [m'] still holds every rocket of [m], with its type
    and with a last-applied number that is not smaller. *)
Definition neverRegresses (m m' : gmap string Rocket) : Prop :=
  ∀ ch r, m !! ch = Some r →
    ∃ r', m' !! ch = Some r'
          ∧ rocketType r' = rocketType r
          ∧ lastMessageNumber r ≤ lastMessageNumber r'.

(** The rows of channel [ch] are the same in the two stores. *)
Definition sameChannel (ch : string) (st st' : Store) : Prop :=
  rockets st' !! ch = rockets st !! ch
  ∧ (∀ n, messages st' !! (ch, n) = messages st !! (ch, n))
  ∧ (∀ n, bufferedMessages st' !! (ch, n) = bufferedMessages st !! (ch, n)).

(** ** RocketController.getAllRockets and RocketService.getAllRockets *)

Inductive SortBy := BySpeed | ByMission | ByStatus | ByType | ByCreatedAt.
Inductive SortOrder := Asc | Desc.

(** [parseInt(s) || d], given the result of [parseInt] ([None] for NaN):
    NaN and 0 are falsy and give the default. *)
Definition orDefault (parsed : option Z) (d : Z) : Z :=
  match parsed with
  | None => d
  | Some v => if v =? 0 then d else v
  end.

(** [Math.max(1, parseInt(req.query.page) || 1)]. *)
Definition pageOf (parsed : option Z) : Z := Z.max 1 (orDefault parsed 1).

(** [Math.max(1, Math.min(100, parseInt(req.query.pageSize) || 50))]. *)
Definition pageSizeOf (parsed : option Z) : Z :=
  Z.max 1 (Z.min 100 (orDefault parsed 50)).

(** [Math.ceil(total / pageSize)], on the exact quotient. *)
Definition totalPagesOf (total pageSize : Z) : Z :=
  Qceiling (inject_Z total / inject_Z pageSize)%Q.

(** The rows that a [where] selects, each with its channel (what
    [mapToRocketState] returns for a row, on the columns of the model). *)
Definition selectRows (where_ : option RocketStatus) (st : Store)
    : list (string * Rocket) :=
  filter (λ cr, matchesWhere where_ cr.2 = true) (map_to_list (rockets st)).

(** [prisma.rocket.findMany({ where, orderBy, skip, take })].  The order
    that the database gives to the selected rows for a sort column and a
    direction is the parameter [dbOrder] (one of the sort columns,
    [createdAt], is generated by the database).  [skip] and [take] are read
    as natural numbers: the controller passes neither a negative [skip]
    (rejected by Prisma) nor a negative [take] (read backwards by Prisma). *)
Definition findMany
    (dbOrder : SortBy → SortOrder → list (string * Rocket) → list (string * Rocket))
    (where_ : option RocketStatus) (sortBy : SortBy) (order : SortOrder)
    (skip take_ : Z) (st : Store) : list (string * Rocket) :=
  take (Z.to_nat take_)
    (drop (Z.to_nat skip) (dbOrder sortBy order (selectRows where_ st))).

Record RocketListQuery := {
  querySortBy : option SortBy;
  queryOrder : option SortOrder;
  queryPage : option Z;
  queryPageSize : option Z;
  queryStatus : option RocketStatus;
}.

Record RocketList := {
  listRockets : list (string * Rocket);
  listTotal : Z;
  listPage : Z;
  listPageSize : Z;
}.

(** [RocketService.getAllRockets]. *)
Definition getAllRockets
    (dbOrder : SortBy → SortOrder → list (string * Rocket) → list (string * Rocket))
    (query : RocketListQuery) (st : Store) : RocketList :=
  let sortBy := default ByCreatedAt (querySortBy query) in
  let order := default Desc (queryOrder query) in
  let page := default 1 (queryPage query) in
  let pageSize := default 50 (queryPageSize query) in
  let skip := (page - 1) * pageSize in
  {| listRockets :=
       findMany dbOrder (queryStatus query) sortBy order skip pageSize st;
     listTotal := RocketStatistics.count (queryStatus query) st;
     listPage := page;
     listPageSize := pageSize |}.

Record ListResponse := {
  responseData : list (string * Rocket);
  paginationTotal : Z;
  paginationPage : Z;
  paginationPageSize : Z;
  paginationTotalPages : Z;
}.

(** [RocketController.getAllRockets], on the parsed [page] and [pageSize]
    of the query string. *)
Definition listRocketsResponse
    (dbOrder : SortBy → SortOrder → list (string * Rocket) → list (string * Rocket))
    (sortBy : option SortBy) (order : option SortOrder)
    (parsedPage parsedPageSize : option Z) (st_filter : option RocketStatus)
    (st : Store) : ListResponse :=
  let result :=
    getAllRockets dbOrder
      {| querySortBy := sortBy; queryOrder := order;
         queryPage := Some (pageOf parsedPage);
         queryPageSize := Some (pageSizeOf parsedPageSize);
         queryStatus := st_filter |} st in
  {| responseData := listRockets result;
     paginationTotal := listTotal result;
     paginationPage := listPage result;
     paginationPageSize := listPageSize result;
     paginationTotalPages := totalPagesOf (listTotal result) (listPageSize result) |}.

(** The rockets of the response to a request for page [p]. *)
Definition pageData
    (dbOrder : SortBy → SortOrder → list (string * Rocket) → list (string * Rocket))
    (sortBy : option SortBy) (order : option SortOrder)
    (parsedPageSize : option Z) (st_filter : option RocketStatus)
    (st : Store) (p : Z) : list (string * Rocket) :=
  responseData
    (listRocketsResponse dbOrder sortBy order (Some p) parsedPageSize
       st_filter st).

(** ** Predicates on stores used in the statements, continued *)

(** The message numbered [n] of channel [ch] is recorded: it has an audit
    row or a buffered row. *)
Definition recorded (ch : string) (n : Z) (st : Store) : Prop :=
  is_Some (messages st !! (ch, n)) ∨ is_Some (bufferedMessages st !! (ch, n)).

(** Every buffered message belongs to a channel that has a rocket, and its
    number exceeds the last-applied number of the rocket by more than
    [d]. *)
Definition aheadBy (d : Z) (st : Store) : Prop :=
  ∀ ch n b, bufferedMessages st !! (ch, n) = Some b →
    ∃ r, rockets st !! ch = Some r ∧ lastMessageNumber r + d < n.

(** The state in which [processBufferedMessages ch n] is called: the
    rocket of the channel is behind [n], no buffered row of the channel is
    below [n], and the rows of the other channels are ahead by [d]. *)
Definition drainReady (d : Z) (ch : string) (n : Z) (st : Store) : Prop :=
  (∃ r, rockets st !! ch = Some r ∧ lastMessageNumber r < n)
  ∧ (∀ k b, bufferedMessages st !! (ch, k) = Some b → n ≤ k)
  ∧ (∀ c k b, c ≠ ch → bufferedMessages st !! (c, k) = Some b →
       ∃ r, rockets st !! c = Some r ∧ lastMessageNumber r + d < k).

(** ** Sample data (the channel and the rocket of
    services/message-ingestion/tests/message-processor.test.ts) *)

Definition sampleChannel : string := "193270a9-c9cf-404a-8f83-838e71d9ae67".

Definition makeRocket (speed : Z) (s : RocketStatus) (reason : option string)
    (last : Z) : Rocket :=
  {| rocketType := "Falcon-9";
     currentSpeed := speed;
     rocketMission := "ARTEMIS";
     status := s;
     explosionReason := reason;
     lastMessageNumber := last;
     lastMessageTime := 1643830745863 |}.

Definition makeMessage (n : Z) (t : MessageType) (p : MessagePayload)
    : IncomingMessage :=
  {| metadata := {| channel := sampleChannel;
                    messageNumber := n;
                    messageTime := 1643830745863 + 60000 * n;
                    messageType := t |};
     message := p |}.

Definition launch (n : Z) : IncomingMessage :=
  makeMessage n ROCKET_LAUNCHED (RocketLaunchedPayload "Falcon-9" 500 "ARTEMIS").
Definition speedUp (n b : Z) : IncomingMessage :=
  makeMessage n ROCKET_SPEED_INCREASED (RocketSpeedIncreasedPayload b).
Definition slowDown (n b : Z) : IncomingMessage :=
  makeMessage n ROCKET_SPEED_DECREASED (RocketSpeedDecreasedPayload b).
Definition explode (n : Z) (reason : string) : IncomingMessage :=
  makeMessage n ROCKET_EXPLODED (RocketExplodedPayload reason).
Definition changeMission (n : Z) (m : string) : IncomingMessage :=
  makeMessage n ROCKET_MISSION_CHANGED (RocketMissionChangedPayload m).

(** The same message on another channel. *)
Definition onChannel (ch : string) (im : IncomingMessage) : IncomingMessage :=
  {| metadata := {| channel := ch;
                    messageNumber := messageNumber (metadata im);
                    messageTime := messageTime (metadata im);
                    messageType := messageType (metadata im) |};
     message := message im |}.

(** A store whose only row is the given rocket. *)
Definition storeWith (r : Rocket) : Store :=
  {| rockets := {[ sampleChannel := r ]}; messages := ∅; bufferedMessages := ∅ |}.

(** Two active rockets and an exploded one. *)
Definition sampleFleet : Store :=
  {| rockets := {[ "a" := makeRocket 1000 ACTIVE None 1;
                   "b" := makeRocket 2001 ACTIVE None 1;
                   "c" := makeRocket 0 EXPLODED (Some "X") 2 ]};
     messages := ∅;
     bufferedMessages := ∅ |}.

(** * Properties *)

(** ** Numbers *)

(** Up to [Number.MAX_SAFE_INTEGER] in magnitude the double is the integer. *)
Lemma toNumber_safe (z : Z) :
  Z.abs z ≤ MAX_SAFE_INTEGER → toNumber z = z.
Proof.
  unfold toNumber, MAX_SAFE_INTEGER. intros H.
  destruct (Z.ltb_spec (Z.abs z) (2 ^ 53)); [done|lia].
Qed.

Lemma roundToEven_pos (a e : Z) :
  0 ≤ e → 2 ^ e ≤ a → 0 < roundToEven a e.
Proof.
  intros He Ha. unfold roundToEven.
  assert (Hp : 0 < 2 ^ e) by (apply Z.pow_pos_nonneg; lia).
  assert (Hq : 0 < a / 2 ^ e) by (apply Z.div_str_pos; lia).
  destruct (a mod 2 ^ e <? 2 ^ (e - 1)); [nia|].
  destruct (2 ^ (e - 1) <? a mod 2 ^ e); [nia|].
  destruct (Z.even (a / 2 ^ e)); nia.
Qed.

Lemma toNumber_sign (z : Z) :
  (z < 0 → toNumber z < 0) ∧ (0 ≤ z → 0 ≤ toNumber z).
Proof.
  unfold toNumber.
  destruct (Z.ltb_spec (Z.abs z) (2 ^ 53)) as [|Hbig]; [done|].
  assert (Hlog : 53 ≤ Z.log2 (Z.abs z)).
  { rewrite <- (Z.log2_pow2 53) by lia. by apply Z.log2_le_mono. }
  assert (Hpos : 0 < roundToEven (Z.abs z) (Z.log2 (Z.abs z) - 52)).
  { apply roundToEven_pos; [lia|].
    transitivity (2 ^ Z.log2 (Z.abs z)).
    - apply Z.pow_le_mono_r; lia.
    - apply Z.log2_spec. lia. }
  split; intros Hz.
  - rewrite Z.sgn_neg by done. lia.
  - rewrite Z.sgn_pos by lia. lia.
Qed.

(** ** The store *)

Lemma Store_eq (s1 s2 : Store) :
  rockets s1 = rockets s2 →
  messages s1 = messages s2 →
  bufferedMessages s1 = bufferedMessages s2 →
  s1 = s2.
Proof. destruct s1, s2; simpl; congruence. Qed.

Lemma set_rockets_insert_id (st : Store) (ch : string) (r : Rocket) :
  rockets st !! ch = Some r → set_rockets (insert ch r) st = st.
Proof.
  intros H. apply Store_eq; simpl; try reflexivity.
  by apply insert_id.
Qed.

Lemma reconstruct_rowOf (im : IncomingMessage) :
  reconstruct (channel (metadata im)) (messageNumber (metadata im)) (rowOf im)
  = im.
Proof. by destruct im as [[] ?]. Qed.

(** ** The state transition function *)

Ltac run_monad :=
  unfold applyStateChange, ensureRocket, asByPayload, asReasonPayload,
    asMissionPayload, RocketRepository.update, RocketRepository.create,
    bind, ret, throw; simpl.

(** On a well-shaped message and the stored entity, [applyStateChange]
    never throws and leaves [transition] in the store. *)
Lemma applyStateChange_existing (st : Store) (r : Rocket) (im : IncomingMessage) :
  rockets st !! channel (metadata im) = Some r →
  wellShapedMessage im = true →
  applyStateChange (Some r) im st
  = (set_rockets (insert (channel (metadata im)) (transition r im)) st,
     Ok (transition r im)).
Proof.
  intros Hr Hs. destruct im as [[ch n t ty] p]. simpl in *.
  unfold wellShapedMessage in Hs. simpl in Hs.
  destruct ty, p; simpl in Hs; try discriminate; unfold transition; simpl;
    run_monad; destruct (status r) eqn:Es; simpl;
    rewrite ?Hr; simpl; try reflexivity;
    rewrite set_rockets_insert_id by assumption; reflexivity.
Qed.

(** [applyStateChange] touches neither the audit table nor the buffer. *)
Lemma applyStateChange_frame (st : Store) (o : option Rocket) (im : IncomingMessage) :
  messages (applyStateChange o im st).1 = messages st
  ∧ bufferedMessages (applyStateChange o im st).1 = bufferedMessages st.
Proof.
  destruct im as [[ch n t ty] p], o as [r|]; simpl;
    destruct ty; run_monad; try (split; reflexivity);
    try (destruct (status r)); simpl; try (split; reflexivity);
    destruct p; simpl; try (split; reflexivity);
    destruct (rockets st !! ch); simpl; split; reflexivity.
Qed.

(** Without an entity only a launch succeeds; every other kind throws
    before any write. *)
Lemma applyStateChange_absent (st : Store) (im : IncomingMessage) :
  messageType (metadata im) ≠ ROCKET_LAUNCHED →
  applyStateChange None im st
  = (st, Err (RocketNotFound (channel (metadata im)))).
Proof.
  intros Hne. destruct im as [[ch n t ty] p]. simpl in *.
  destruct ty; try congruence; reflexivity.
Qed.

(** ** One step of the drain *)

Lemma drain_ok (f : nat) (ch : string) (n : Z) (st : Store) :
  (drain f ch n st).2 = Ok tt.
Proof.
  destruct f; simpl; [reflexivity|].
  unfold catch_and_log. by destruct (bind _ _ st) as [? []].
Qed.

Lemma catch_and_log_drain (f : nat) (ch : string) (n : Z) (st : Store) :
  catch_and_log (drain f ch n) st = drain f ch n st.
Proof.
  unfold catch_and_log. pose proof (drain_ok f ch n st) as H.
  destruct (drain f ch n st) as [st' [[]|e]]; simpl in *; congruence.
Qed.

Lemma drain_missing (f : nat) (ch : string) (n : Z) (st : Store) :
  bufferedMessages st !! (ch, n) = None →
  drain f ch n st = (st, Ok tt).
Proof.
  intros H. destruct f; simpl; [reflexivity|].
  unfold catch_and_log, bind, BufferedMessageRepository.findUnique.
  by rewrite H.
Qed.

Lemma drain_orphan (f : nat) (ch : string) (n : Z) (b : CreateMessageData)
    (st : Store) :
  bufferedMessages st !! (ch, n) = Some b →
  rockets st !! ch = None →
  drain (S f) ch n st = (set_buffered (delete (ch, n)) st, Ok tt).
Proof.
  intros Hb Hr. simpl.
  unfold catch_and_log, bind, BufferedMessageRepository.findUnique,
    RocketRepository.findByChannel, BufferedMessageRepository.delete, ret.
  by rewrite Hb, Hr, Hb.
Qed.

Lemma drain_found (f : nat) (ch : string) (n : Z) (b : CreateMessageData)
    (r : Rocket) (st : Store) :
  bufferedMessages st !! (ch, n) = Some b →
  rockets st !! ch = Some r →
  wellShaped (rowType b) (rowPayload b) = true →
  messages st !! (ch, n) = None →
  drain (S f) ch n st = drain f ch (n + 1) (drained ch n b r st).
Proof.
  intros Hb Hr Hs Hm. simpl.
  unfold catch_and_log at 1, bind at 1, BufferedMessageRepository.findUnique at 1.
  rewrite Hb. (* MARK1 *)
  unfold bind at 1, RocketRepository.findByChannel at 1.
  rewrite Hr.
  unfold bind at 1.
  rewrite (applyStateChange_existing st r (reconstruct ch n b)) by done.
  simpl.
  unfold bind at 1, MessageRepository.create at 1. simpl. rewrite Hm.
  unfold bind at 1, BufferedMessageRepository.delete at 1. simpl.
  rewrite Hb. apply catch_and_log_drain.
Qed.

(** ** The exits of [processMessage] *)

Section Exits.
Variable im : IncomingMessage.
Variable st : Store.

Lemma processMessage_duplicate :
  is_Some (messages st !! (channel (metadata im), messageNumber (metadata im))) →
  processMessage im st = (st, Ok DuplicateIgnored).
Proof.
  intros [x Hx]. unfold processMessage, bind, MessageRepository.findUnique.
  by rewrite Hx.
Qed.

Lemma processMessage_buffered_duplicate :
  messages st !! (channel (metadata im), messageNumber (metadata im)) = None →
  is_Some (bufferedMessages st
             !! (channel (metadata im), messageNumber (metadata im))) →
  processMessage im st = (st, Ok BufferedDuplicateIgnored).
Proof.
  intros Hm [x Hx].
  unfold processMessage, bind, MessageRepository.findUnique,
    BufferedMessageRepository.findUnique.
  by rewrite Hm, Hx.
Qed.

Hypothesis Hm :
  messages st !! (channel (metadata im), messageNumber (metadata im)) = None.
Hypothesis Hb :
  bufferedMessages st !! (channel (metadata im), messageNumber (metadata im))
  = None.

Lemma processMessage_out_of_order (r : Rocket) :
  rockets st !! channel (metadata im) = Some r →
  messageNumber (metadata im) < lastMessageNumber r →
  processMessage im st
  = (set_messages
       (insert (channel (metadata im), messageNumber (metadata im)) (rowOf im))
       st,
     Ok OutOfOrderAudited).
Proof.
  intros Hr Hlt.
  unfold processMessage, bind, MessageRepository.findUnique,
    BufferedMessageRepository.findUnique, RocketRepository.findByChannel,
    MessageRepository.create, ret.
  rewrite Hm, Hb, Hr.
  destruct (Z.ltb_spec (messageNumber (metadata im)) (lastMessageNumber r));
    [|lia].
  by rewrite Hm.
Qed.

Lemma processMessage_future (r : Rocket) :
  rockets st !! channel (metadata im) = Some r →
  lastMessageNumber r + 1 < messageNumber (metadata im) →
  processMessage im st
  = (set_buffered
       (insert (channel (metadata im), messageNumber (metadata im)) (rowOf im))
       st,
     Ok Buffered).
Proof.
  intros Hr Hlt.
  unfold processMessage, bind, MessageRepository.findUnique,
    BufferedMessageRepository.findUnique, RocketRepository.findByChannel,
    BufferedMessageRepository.create, ret.
  rewrite Hm, Hb, Hr.
  destruct (Z.ltb_spec (messageNumber (metadata im)) (lastMessageNumber r));
    [lia|].
  rewrite Z.gtb_ltb.
  destruct (Z.ltb_spec (lastMessageNumber r + 1) (messageNumber (metadata im)));
    [|lia].
  by rewrite Hb.
Qed.

(** The apply branch is taken when there is no entity, and for both
    [messageNumber = lastMessageNumber] and
    [messageNumber = lastMessageNumber + 1] when there is one. *)
Lemma processMessage_apply :
  match rockets st !! channel (metadata im) with
  | None => True
  | Some r => lastMessageNumber r ≤ messageNumber (metadata im)
              ≤ lastMessageNumber r + 1
  end →
  processMessage im st
  = applyAndDrain (rockets st !! channel (metadata im)) im st.
Proof.
  intros Hord.
  unfold processMessage, bind at 1, MessageRepository.findUnique.
  rewrite Hm.
  unfold bind at 1, BufferedMessageRepository.findUnique. rewrite Hb.
  unfold bind at 1, RocketRepository.findByChannel.
  destruct (rockets st !! channel (metadata im)) as [r|]; [|reflexivity].
  destruct (Z.ltb_spec (messageNumber (metadata im)) (lastMessageNumber r));
    [lia|].
  rewrite Z.gtb_ltb.
  destruct (Z.ltb_spec (lastMessageNumber r + 1) (messageNumber (metadata im)));
    [lia|].
  reflexivity.
Qed.

(** Once the apply has succeeded the audit row is written, the drain runs,
    and the submission returns normally whatever the drain met. *)
Lemma applyAndDrain_applied (o : option Rocket) (st1 : Store) (r1 : Rocket) :
  applyStateChange o im st = (st1, Ok r1) →
  applyAndDrain o im st
  = ((processBufferedMessages (channel (metadata im))
        (messageNumber (metadata im) + 1)
        (set_messages
           (insert (channel (metadata im), messageNumber (metadata im))
              (rowOf im)) st1)).1,
     Ok Processed).
Proof.
  intros Happ. unfold applyAndDrain, bind at 1. rewrite Happ.
  unfold bind at 1, MessageRepository.create.
  destruct (applyStateChange_frame st o im) as [Hfm _].
  rewrite Happ in Hfm. simpl in Hfm. rewrite Hfm, Hm.
  unfold bind, ret, processBufferedMessages.
  match goal with |- context [drain ?f ?c ?k ?s] =>
    pose proof (drain_ok f c k s) as Hok; destruct (drain f c k s) as [st' [[]|e]]
  end; simpl in *; congruence.
Qed.

Lemma applyAndDrain_failed (o : option Rocket) (st1 : Store) (e : Error) :
  applyStateChange o im st = (st1, Err e) →
  applyAndDrain o im st = (st1, Err e).
Proof. intros Happ. unfold applyAndDrain, bind at 1. by rewrite Happ. Qed.

End Exits.

(** ** The drain as a whole *)

(** One call of [processBufferedMessages], every exit spelled out: no row,
    orphaned row, failed apply, failed audit, or the recursive call. *)
Lemma drain_unfold (f : nat) (ch : string) (n : Z) (st : Store) :
  drain (S f) ch n st =
  match bufferedMessages st !! (ch, n) with
  | None => (st, Ok tt)
  | Some b =>
      match rockets st !! ch with
      | None => (set_buffered (delete (ch, n)) st, Ok tt)
      | Some r =>
          match applyStateChange (Some r) (reconstruct ch n b) st with
          | (st1, Err _) => (st1, Ok tt)
          | (st1, Ok _) =>
              match messages st1 !! (ch, n) with
              | Some _ => (st1, Ok tt)
              | None =>
                  drain f ch (n + 1)
                    (set_buffered (delete (ch, n))
                       (set_messages (insert (ch, n) b) st1))
              end
          end
      end
  end.
Proof.
  destruct (bufferedMessages st !! (ch, n)) as [b|] eqn:Hb;
    [|by apply drain_missing].
  destruct (rockets st !! ch) as [r|] eqn:Hr; [|by eapply drain_orphan].
  simpl.
  unfold catch_and_log at 1, bind at 1, BufferedMessageRepository.findUnique at 1.
  rewrite Hb.
  unfold bind at 1, RocketRepository.findByChannel at 1. rewrite Hr.
  unfold bind at 1.
  destruct (applyStateChange_frame st (Some r) (reconstruct ch n b)) as [_ Hfb].
  destruct (applyStateChange (Some r) (reconstruct ch n b) st) as [st1 [r1|e]];
    [|reflexivity].
  simpl in Hfb.
  unfold bind at 1, MessageRepository.create at 1.
  destruct (messages st1 !! (ch, n)); [reflexivity|].
  unfold bind at 1, BufferedMessageRepository.delete at 1. simpl.
  rewrite Hfb, Hb. apply catch_and_log_drain.
Qed.

(** The recursion is bounded by the size of the buffer: any fuel above it
    gives the same result, so [processBufferedMessages] never stops for
    lack of fuel. *)
Lemma drain_fuel (f1 f2 : nat) (ch : string) (n : Z) (st : Store) :
  (size (bufferedMessages st) < f1)%nat →
  (size (bufferedMessages st) < f2)%nat →
  drain f1 ch n st = drain f2 ch n st.
Proof.
  revert f2 n st. induction f1 as [|f1 IH]; intros f2 n st H1 H2; [lia|].
  destruct f2 as [|f2]; [lia|].
  rewrite !drain_unfold.
  destruct (bufferedMessages st !! (ch, n)) as [b|] eqn:Hb; [|reflexivity].
  destruct (rockets st !! ch) as [r|]; [|reflexivity].
  destruct (applyStateChange_frame st (Some r) (reconstruct ch n b)) as [_ Hfb].
  destruct (applyStateChange (Some r) (reconstruct ch n b) st) as [st1 [r1|e]];
    [|reflexivity].
  simpl in Hfb.
  destruct (messages st1 !! (ch, n)); [reflexivity|].
  assert (Hsz : size (bufferedMessages st)
                = S (size (delete (ch, n) (bufferedMessages st)))).
  { rewrite <- (insert_delete_id (bufferedMessages st) (ch, n) b) at 1 by done.
    apply map_size_insert_None, lookup_delete_eq. }
  apply IH; simpl; rewrite Hfb; lia.
Qed.

Lemma processBufferedMessages_fuel (f : nat) (ch : string) (n : Z) (st : Store) :
  (size (bufferedMessages st) < f)%nat →
  drain f ch n st = processBufferedMessages ch n st.
Proof. intros H. unfold processBufferedMessages. apply drain_fuel; lia. Qed.

(** The drain never removes or overwrites an audit row. *)
Lemma drain_messages_preserved (f : nat) (ch : string) (n : Z) (st : Store)
    (k : string * Z) (x : CreateMessageData) :
  messages st !! k = Some x →
  messages (drain f ch n st).1 !! k = Some x.
Proof.
  revert n st. induction f as [|f IH]; intros n st Hk; [done|].
  rewrite drain_unfold.
  destruct (bufferedMessages st !! (ch, n)) as [b|] eqn:Hb; [|done].
  destruct (rockets st !! ch) as [r|]; [|done].
  destruct (applyStateChange_frame st (Some r) (reconstruct ch n b)) as [Hfm _].
  destruct (applyStateChange (Some r) (reconstruct ch n b) st) as [st1 [r1|e]];
    simpl in Hfm; [|by simpl; rewrite Hfm].
  destruct (messages st1 !! (ch, n)) eqn:Hn; [by simpl; rewrite Hfm|].
  apply IH. simpl. rewrite lookup_insert_ne; [by rewrite Hfm|].
  intros <-. congruence.
Qed.

(** ** Speed decrease *)

(** C8 (the claim as the code has it): for an ACTIVE entity, a
    SpeedDecrease(by) event with [by > 0] is applied without an error and
    the entity that the store then holds for the channel is the one
    returned; its speed is never negative, it is exactly 0 when [by]
    exceeds the current speed, and it is [max(0, speed - by)] when the
    current speed is at most [Number.MAX_SAFE_INTEGER], the range in which
    the subtraction of the code is exact. *)
Theorem speed_decrease_clamps_at_zero (st : Store) (im : IncomingMessage)
    (r : Rocket) (b : Z) :
  rockets st !! channel (metadata im) = Some r →
  status r = ACTIVE →
  messageType (metadata im) = ROCKET_SPEED_DECREASED →
  message im = RocketSpeedDecreasedPayload b →
  0 < b →
  ∃ r', (applyStateChange (Some r) im st).2 = Ok r'
      ∧ entity (channel (metadata im)) (applyStateChange (Some r) im st).1
        = Some r'
      ∧ (currentSpeed r ≤ MAX_SAFE_INTEGER →
         currentSpeed r' = Z.max 0 (currentSpeed r - b))
      ∧ 0 ≤ currentSpeed r'
      ∧ (currentSpeed r < b → currentSpeed r' = 0).
Proof.
  intros Hr Hact Ht Hp Hb.
  exists (transition r im).
  rewrite applyStateChange_existing;
    [|done|unfold wellShapedMessage; by rewrite Ht, Hp].
  unfold entity. simpl. rewrite lookup_insert_eq.
  unfold transition. rewrite Ht, Hact, Hp. simpl. unfold Number_sub.
  destruct (toNumber_sign (currentSpeed r - b)) as [Hneg Hnonneg].
  repeat split; try lia.
  intros Hsafe.
  destruct (Z.lt_ge_cases (currentSpeed r - b) 0) as [Hlt|Hge].
  - specialize (Hneg Hlt). lia.
  - rewrite toNumber_safe; [done|]. unfold MAX_SAFE_INTEGER in *. lia.
Qed.

Lemma speed_decrease_clamps_at_zero_witness :
  ∃ r', (applyStateChange (Some (makeRocket 500 ACTIVE None 1))
           (slowDown 2 1000) (storeWith (makeRocket 500 ACTIVE None 1))).2
        = Ok r'
      ∧ entity sampleChannel
          (applyStateChange (Some (makeRocket 500 ACTIVE None 1))
             (slowDown 2 1000) (storeWith (makeRocket 500 ACTIVE None 1))).1
        = Some r'
      ∧ (500 ≤ MAX_SAFE_INTEGER → currentSpeed r' = Z.max 0 (500 - 1000))
      ∧ 0 ≤ currentSpeed r'
      ∧ (500 < 1000 → currentSpeed r' = 0).
Proof.
  apply (speed_decrease_clamps_at_zero
           (storeWith (makeRocket 500 ACTIVE None 1)) (slowDown 2 1000)
           (makeRocket 500 ACTIVE None 1) 1000).
  - vm_compute. reflexivity.
  - reflexivity.
  - reflexivity.
  - reflexivity.
  - lia.
Defined.

(** C8 (the claim as stated fails): the speeds are doubles.  On an ACTIVE
    entity of speed 9007199254740994 (2^53 + 2), SpeedDecrease(1) leaves
    the speed 9007199254740992 in the store: the difference
    9007199254740993 is not a double and is rounded to the even
    neighbour. *)
Lemma speed_decrease_is_rounded :
  ∃ r', entity sampleChannel
          (applyStateChange (Some (makeRocket 9007199254740994 ACTIVE None 1))
             (slowDown 2 1)
             (storeWith (makeRocket 9007199254740994 ACTIVE None 1))).1
        = Some r'
      ∧ currentSpeed r' = 9007199254740992
      ∧ currentSpeed r' ≠ Z.max 0 (9007199254740994 - 1).
Proof.
  eexists. split; [vm_compute; reflexivity|]. split; [reflexivity|].
  vm_compute. discriminate.
Qed.

(** ** Applies that do not write the entity *)

(** An apply that returns the entity as it found it: the message is
    audited and the drain starts, and the entity row is not written. *)
Lemma processMessage_unwritten (st : Store) (im : IncomingMessage) (r : Rocket) :
  rockets st !! channel (metadata im) = Some r →
  lastMessageNumber r ≤ messageNumber (metadata im) ≤ lastMessageNumber r + 1 →
  messages st !! (channel (metadata im), messageNumber (metadata im)) = None →
  bufferedMessages st !! (channel (metadata im), messageNumber (metadata im))
    = None →
  applyStateChange (Some r) im st = (st, Ok r) →
  (∃ st', processMessage im st = (st', Ok Processed)
          ∧ messages st' !! (channel (metadata im), messageNumber (metadata im))
            = Some (rowOf im))
  ∧ (bufferedMessages st
       !! (channel (metadata im), messageNumber (metadata im) + 1) = None →
     processMessage im st
     = (set_messages
          (insert (channel (metadata im), messageNumber (metadata im)) (rowOf im))
          st,
        Ok Processed)).
Proof.
  intros Hr Hord Hm Hb Happ.
  assert (Hpm : processMessage im st
    = ((processBufferedMessages (channel (metadata im))
          (messageNumber (metadata im) + 1)
          (set_messages
             (insert (channel (metadata im), messageNumber (metadata im))
                (rowOf im)) st)).1,
       Ok Processed)).
  { rewrite processMessage_apply by (try done; by rewrite Hr).
    rewrite Hr. exact (applyAndDrain_applied im st Hm (Some r) st r Happ). }
  split.
  - eexists. split; [exact Hpm|].
    apply drain_messages_preserved. simpl. apply lookup_insert_eq.
  - intros Hnext. rewrite Hpm. unfold processBufferedMessages.
    by rewrite drain_missing.
Qed.

(** C3 (the claim as the code has it): for an entity in EXPLODED status, an
    in-order SpeedIncrease, SpeedDecrease or MissionChange event leaves the
    whole entity row as it is, the last-applied sequence number included
    (it is not advanced), and the event is written to the audit table. *)
Theorem exploded_rocket_ignores_update (st : Store) (im : IncomingMessage)
    (r : Rocket) :
  rockets st !! channel (metadata im) = Some r →
  status r = EXPLODED →
  messageType (metadata im) = ROCKET_SPEED_INCREASED
  ∨ messageType (metadata im) = ROCKET_SPEED_DECREASED
  ∨ messageType (metadata im) = ROCKET_MISSION_CHANGED →
  messageNumber (metadata im) = lastMessageNumber r + 1 →
  messages st !! (channel (metadata im), messageNumber (metadata im)) = None →
  bufferedMessages st !! (channel (metadata im), messageNumber (metadata im))
    = None →
  applyStateChange (Some r) im st = (st, Ok r)
  ∧ (∃ st', processMessage im st = (st', Ok Processed)
            ∧ messages st' !! (channel (metadata im), messageNumber (metadata im))
              = Some (rowOf im))
  ∧ (bufferedMessages st
       !! (channel (metadata im), messageNumber (metadata im) + 1) = None →
     processMessage im st
     = (set_messages
          (insert (channel (metadata im), messageNumber (metadata im)) (rowOf im))
          st,
        Ok Processed)).
Proof.
  intros Hr He Ht Hn Hm Hb.
  assert (Happ : applyStateChange (Some r) im st = (st, Ok r)).
  { destruct im as [[ch n t ty] p]. simpl in *.
    destruct Ht as [-> | [-> | ->]]; run_monad; by rewrite He. }
  split; [exact Happ|].
  apply (processMessage_unwritten st im r); try done. lia.
Qed.

Lemma exploded_rocket_ignores_update_witness :
  applyStateChange (Some (makeRocket 0 EXPLODED (Some "PRESSURE_VESSEL_FAILURE") 5))
    (speedUp 6 1000)
    (storeWith (makeRocket 0 EXPLODED (Some "PRESSURE_VESSEL_FAILURE") 5))
  = (storeWith (makeRocket 0 EXPLODED (Some "PRESSURE_VESSEL_FAILURE") 5),
     Ok (makeRocket 0 EXPLODED (Some "PRESSURE_VESSEL_FAILURE") 5)).
Proof.
  apply (exploded_rocket_ignores_update
           (storeWith (makeRocket 0 EXPLODED (Some "PRESSURE_VESSEL_FAILURE") 5))
           (speedUp 6 1000)
           (makeRocket 0 EXPLODED (Some "PRESSURE_VESSEL_FAILURE") 5));
    [vm_compute; reflexivity | reflexivity | left; reflexivity
    | reflexivity | vm_compute; reflexivity | vm_compute; reflexivity].
Defined.

(** C3 (the claim as stated fails): in the scenario Create(1),
    Terminate(2, "X"), SpeedIncrease(3, 999) the third event meets an
    entity in EXPLODED status whose last-applied sequence is 2, and leaves
    it at 2: the sequence does not advance to 3. *)
Lemma terminal_update_does_not_advance_sequence :
  status <$> entity sampleChannel (submitAll [launch 1; explode 2 "X"] emptyStore)
    = Some EXPLODED
  ∧ lastMessageNumber
      <$> entity sampleChannel (submitAll [launch 1; explode 2 "X"] emptyStore)
    = Some 2
  ∧ (processMessage (speedUp 3 999)
       (submitAll [launch 1; explode 2 "X"] emptyStore)).2 = Ok Processed
  ∧ lastMessageNumber
      <$> entity sampleChannel
            (submitAll [launch 1; explode 2 "X"; speedUp 3 999] emptyStore)
    ≠ Some (messageNumber (metadata (speedUp 3 999))).
Proof. vm_compute. repeat split; congruence. Qed.

(** C4 (the claim as the code has it): a Create event applied when the
    entity exists returns the existing entity with every attribute
    unchanged, the last-applied sequence number included (it is not
    advanced); the entity row is not written, and the event is written to
    the audit table. *)
Theorem launch_on_existing_rocket_is_ignored (st : Store) (im : IncomingMessage)
    (r : Rocket) :
  messageType (metadata im) = ROCKET_LAUNCHED →
  applyStateChange (Some r) im st = (st, Ok r)
  ∧ (rockets st !! channel (metadata im) = Some r →
     lastMessageNumber r ≤ messageNumber (metadata im) ≤ lastMessageNumber r + 1 →
     messages st !! (channel (metadata im), messageNumber (metadata im)) = None →
     bufferedMessages st !! (channel (metadata im), messageNumber (metadata im))
       = None →
     ∃ st', processMessage im st = (st', Ok Processed)
            ∧ messages st' !! (channel (metadata im), messageNumber (metadata im))
              = Some (rowOf im)
            ∧ (bufferedMessages st
                 !! (channel (metadata im), messageNumber (metadata im) + 1) = None →
               st' = set_messages
                       (insert (channel (metadata im), messageNumber (metadata im))
                          (rowOf im)) st)).
Proof.
  intros Ht.
  assert (Happ : applyStateChange (Some r) im st = (st, Ok r)).
  { destruct im as [[ch n t ty] p]. simpl in *. subst ty. reflexivity. }
  split; [exact Happ|].
  intros Hr Hord Hm Hb.
  destruct (processMessage_unwritten st im r Hr Hord Hm Hb Happ)
    as [(st' & Hpm & Hrow) Hnext].
  exists st'. repeat split; try done.
  intros Hnone. specialize (Hnext Hnone). congruence.
Qed.

Lemma launch_on_existing_rocket_is_ignored_witness :
  applyStateChange (Some (makeRocket 500 ACTIVE None 1)) (launch 2)
    (storeWith (makeRocket 500 ACTIVE None 1))
  = (storeWith (makeRocket 500 ACTIVE None 1), Ok (makeRocket 500 ACTIVE None 1)).
Proof.
  apply (launch_on_existing_rocket_is_ignored
           (storeWith (makeRocket 500 ACTIVE None 1)) (launch 2)
           (makeRocket 500 ACTIVE None 1)).
  reflexivity.
Defined.

(** C4 (the claim as stated fails): a second Create, numbered 2, arriving
    in order for the rocket that Create(1) launched leaves the last-applied
    sequence at 1. *)
Lemma second_launch_does_not_advance_sequence :
  lastMessageNumber <$> entity sampleChannel (submitAll [launch 1] emptyStore)
    = Some 1
  ∧ (processMessage (launch 2) (submitAll [launch 1] emptyStore)).2
    = Ok Processed
  ∧ lastMessageNumber
      <$> entity sampleChannel (submitAll [launch 1; launch 2] emptyStore)
    ≠ Some (messageNumber (metadata (launch 2))).
Proof. vm_compute. repeat split; congruence. Qed.

(** ** Messages that are not ahead of the entity *)

(** C2 (the code at the failing input): an entity whose last-applied
    sequence is 5 and for which message 5 has no audit row (the audit write
    of the first delivery failed) receives SpeedIncrease(5, by 1000); the
    sequence number is not greater than the last-applied one, yet the
    transition is applied a second time and the speed goes from 500 to
    1500. *)
Theorem equal_sequence_is_applied_again :
  messageNumber (metadata (speedUp 5 1000))
    ≤ lastMessageNumber (makeRocket 500 ACTIVE None 5)
  ∧ (processMessage (speedUp 5 1000) (storeWith (makeRocket 500 ACTIVE None 5))).2
    = Ok Processed
  ∧ entity sampleChannel
      (processMessage (speedUp 5 1000)
         (storeWith (makeRocket 500 ACTIVE None 5))).1
    = Some (RocketRepository.applyUpdate
              {| upd_currentSpeed := Some 1500;
                 upd_mission := None; upd_status := None;
                 upd_explosionReason := None;
                 upd_lastMessageNumber := Some 5;
                 upd_lastMessageTime :=
                   Some (messageTime (metadata (speedUp 5 1000))) |}
              (makeRocket 500 ACTIVE None 5)).
Proof. vm_compute. repeat split; congruence. Qed.

(** ** Duplicates *)

(** A submission that returns normally leaves the message recorded, in the
    audit table or in the buffer. *)
Lemma processMessage_recorded (st st' : Store) (im : IncomingMessage)
    (o : Outcome) :
  processMessage im st = (st', Ok o) →
  is_Some (messages st' !! (channel (metadata im), messageNumber (metadata im)))
  ∨ is_Some (bufferedMessages st'
               !! (channel (metadata im), messageNumber (metadata im))).
Proof.
  intros Hpm.
  destruct (messages st !! (channel (metadata im), messageNumber (metadata im)))
    as [x|] eqn:Hm.
  { rewrite processMessage_duplicate in Hpm by eauto.
    injection Hpm as <- _. left. eauto. }
  destruct (bufferedMessages st
              !! (channel (metadata im), messageNumber (metadata im)))
    as [x|] eqn:Hb.
  { rewrite processMessage_buffered_duplicate in Hpm by eauto.
    injection Hpm as <- _. right. eauto. }
  assert (Happly :
    match rockets st !! channel (metadata im) with
    | None => True
    | Some r => lastMessageNumber r ≤ messageNumber (metadata im)
                ≤ lastMessageNumber r + 1
    end →
    is_Some (messages st'
               !! (channel (metadata im), messageNumber (metadata im)))).
  { intros Hord. rewrite processMessage_apply in Hpm by done.
    destruct (applyStateChange (rockets st !! channel (metadata im)) im st)
      as [st1 [r1|e]] eqn:Happ.
    - rewrite (applyAndDrain_applied im st Hm _ _ _ Happ) in Hpm.
      injection Hpm as <- _. eexists.
      apply drain_messages_preserved. simpl. apply lookup_insert_eq.
    - rewrite (applyAndDrain_failed im st _ _ _ Happ) in Hpm. discriminate. }
  destruct (rockets st !! channel (metadata im)) as [r|] eqn:Hr;
    [|left; by apply Happly].
  destruct (Z.lt_ge_cases (messageNumber (metadata im)) (lastMessageNumber r)).
  { rewrite (processMessage_out_of_order im st Hm Hb r) in Hpm by done.
    injection Hpm as <- _. left. simpl. rewrite lookup_insert_eq. eauto. }
  destruct (Z.lt_ge_cases (lastMessageNumber r + 1) (messageNumber (metadata im))).
  { rewrite (processMessage_future im st Hm Hb r) in Hpm by done.
    injection Hpm as <- _. right. simpl. rewrite lookup_insert_eq. eauto. }
  left. apply Happly. lia.
Qed.

(** C5: a message whose (channel, number) has an audit row or a buffered
    row is accepted without any write: the store that [processMessage]
    leaves is the store it was given.  In particular, once a submission has
    returned normally, submitting the same message again changes nothing. *)
Theorem duplicate_submission_writes_nothing (st : Store) (im : IncomingMessage) :
  (is_Some (messages st !! (channel (metadata im), messageNumber (metadata im))) →
   processMessage im st = (st, Ok DuplicateIgnored))
  ∧ (messages st !! (channel (metadata im), messageNumber (metadata im)) = None →
     is_Some (bufferedMessages st
                !! (channel (metadata im), messageNumber (metadata im))) →
     processMessage im st = (st, Ok BufferedDuplicateIgnored))
  ∧ (∀ st' o, processMessage im st = (st', Ok o) →
     processMessage im st' = (st', Ok DuplicateIgnored)
     ∨ processMessage im st' = (st', Ok BufferedDuplicateIgnored)).
Proof.
  split; [apply processMessage_duplicate|].
  split; [apply processMessage_buffered_duplicate|].
  intros st' o Hpm.
  destruct (messages st' !! (channel (metadata im), messageNumber (metadata im)))
    as [x|] eqn:Hm.
  { left. apply processMessage_duplicate. eauto. }
  right. apply processMessage_buffered_duplicate; [done|].
  destruct (processMessage_recorded st st' im o Hpm) as [[y Hy]|Hbuf];
    [congruence|done].
Qed.

Lemma duplicate_submission_writes_nothing_witness :
  processMessage (launch 1) (submitAll [launch 1] emptyStore)
  = (submitAll [launch 1] emptyStore, Ok DuplicateIgnored)
  ∧ processMessage (speedUp 3 1000) (submitAll [launch 1; speedUp 3 1000] emptyStore)
    = (submitAll [launch 1; speedUp 3 1000] emptyStore,
       Ok BufferedDuplicateIgnored).
Proof.
  split.
  - apply (duplicate_submission_writes_nothing
             (submitAll [launch 1] emptyStore) (launch 1)).
    vm_compute. eauto.
  - apply (duplicate_submission_writes_nothing
             (submitAll [launch 1; speedUp 3 1000] emptyStore) (speedUp 3 1000)).
    + vm_compute. reflexivity.
    + vm_compute. eauto.
Defined.

(** ** Orphaned buffered messages *)

(** C9: a drain step that finds the buffered row of the expected number
    but no entity for the channel deletes that row and stops, whatever
    else is buffered; no call of the drain ever returns a failure, so the
    submission that triggered it returns normally once its own apply and
    audit have succeeded. *)
Theorem orphaned_buffered_message_is_dropped (st : Store) (ch : string) (n : Z)
    (b : CreateMessageData) :
  bufferedMessages st !! (ch, n) = Some b →
  rockets st !! ch = None →
  processBufferedMessages ch n st = (set_buffered (delete (ch, n)) st, Ok tt)
  ∧ (∀ f, drain (S f) ch n st = (set_buffered (delete (ch, n)) st, Ok tt))
  ∧ (∀ f ch' n' st', (drain f ch' n' st').2 = Ok tt)
  ∧ (∀ im o st0 st1 r1,
       messages st0 !! (channel (metadata im), messageNumber (metadata im)) = None →
       applyStateChange o im st0 = (st1, Ok r1) →
       (applyAndDrain o im st0).2 = Ok Processed).
Proof.
  intros Hb Hr. split; [|split; [|split]].
  - unfold processBufferedMessages. by eapply drain_orphan.
  - intros f. by eapply drain_orphan.
  - intros. apply drain_ok.
  - intros im o st0 st1 r1 Hm Happ.
    by rewrite (applyAndDrain_applied im st0 Hm _ _ _ Happ).
Qed.

Lemma orphaned_buffered_message_is_dropped_witness :
  processBufferedMessages sampleChannel 2
    {| rockets := ∅; messages := ∅;
       bufferedMessages :=
         {[ (sampleChannel, 2) := rowOf (speedUp 2 500);
            (sampleChannel, 3) := rowOf (speedUp 3 1000) ]} |}
  = ({| rockets := ∅; messages := ∅;
        bufferedMessages := {[ (sampleChannel, 3) := rowOf (speedUp 3 1000) ]} |},
     Ok tt).
Proof.
  destruct (orphaned_buffered_message_is_dropped
              {| rockets := ∅; messages := ∅;
                 bufferedMessages :=
                   {[ (sampleChannel, 2) := rowOf (speedUp 2 500);
                      (sampleChannel, 3) := rowOf (speedUp 3 1000) ]} |}
              sampleChannel 2 (rowOf (speedUp 2 500)))
    as [H _]; [vm_compute; reflexivity | vm_compute; reflexivity |].
  rewrite H. vm_compute. reflexivity.
Defined.

(** ** Buffering and draining *)

(** Applied to the stored entity of the channel (or to its absence), a
    successful [applyStateChange] returns the row that the store then holds
    for the channel. *)
Lemma applyStateChange_stored (st st1 : Store) (im : IncomingMessage)
    (r1 : Rocket) :
  applyStateChange (rockets st !! channel (metadata im)) im st = (st1, Ok r1) →
  rockets st1 !! channel (metadata im) = Some r1.
Proof.
  destruct im as [[ch n t ty] p]. simpl.
  destruct (rockets st !! ch) as [r|] eqn:Hr.
  - destruct ty; run_monad; try (destruct (status r)); simpl;
      try (intros [= <- <-]; done);
      destruct p; simpl; try discriminate; rewrite Hr;
      intros [= <- <-]; simpl; apply lookup_insert_eq.
  - destruct ty; run_monad; try discriminate.
    destruct p; simpl; try discriminate. rewrite Hr.
    intros [= <- <-]. simpl. apply lookup_insert_eq.
Qed.



(** ** Reordering *)

Lemma transition_writes (r : Rocket) (im : IncomingMessage) :
  wellShapedMessage im = true →
  writesEntity (status r) (messageType (metadata im)) = true →
  lastMessageNumber (transition r im) = messageNumber (metadata im)
  ∧ status (transition r im) = statusAfter (status r) (messageType (metadata im)).
Proof.
  destruct im as [[ch n t ty] p], r as [rt rs rm [] rr rl rtm];
    unfold wellShapedMessage, transition; simpl; intros Hs Hw;
    destruct ty, p; simpl in *; try discriminate; done.
Qed.

Lemma transition_ignored (r : Rocket) (im : IncomingMessage) :
  writesEntity (status r) (messageType (metadata im)) = false →
  transition r im = r.
Proof.
  destruct im as [[ch n t ty] p], r as [rt rs rm [] rr rl rtm];
    unfold transition; simpl; intros Hw;
    destruct ty, p; simpl in *; try discriminate; done.
Qed.

Lemma foldl_ignored (r : Rocket) (ims : list IncomingMessage) :
  allIgnored (status r) ims = true → foldl transition r ims = r.
Proof.
  induction ims as [|a ims IH]; [done|].
  simpl. intros [Ha Hims]%andb_prop. apply negb_true_iff in Ha.
  rewrite (transition_ignored r a Ha). by apply IH.
Qed.

Lemma allIgnored_take (s : RocketStatus) (ims : list IncomingMessage) (k : nat) :
  allIgnored s ims = true → allIgnored s (take k ims) = true.
Proof.
  revert k. induction ims as [|a ims IH]; intros k; [by destruct k|].
  destruct k as [|k]; [done|].
  simpl. intros [Ha Hims]%andb_prop. rewrite Ha. by apply IH.
Qed.

Lemma followUps_cons (ch : string) (n : Z) (a : IncomingMessage)
    (rest : list IncomingMessage) :
  followUps ch n (a :: rest) = true →
  channel (metadata a) = ch
  ∧ messageNumber (metadata a) = n
  ∧ wellShapedMessage a = true
  ∧ followUps ch (n + 1) rest = true.
Proof.
  simpl. rewrite !andb_true_iff, !bool_decide_eq_true. tauto.
Qed.

Lemma followUps_lookup (ch : string) (rest : list IncomingMessage) :
  ∀ (n : Z) (i : nat) (im : IncomingMessage),
    followUps ch n rest = true →
    rest !! i = Some im →
    channel (metadata im) = ch
    ∧ messageNumber (metadata im) = n + Z.of_nat i
    ∧ wellShapedMessage im = true.
Proof.
  induction rest as [|a rest IH]; intros n i im Hf Hi; [done|].
  apply followUps_cons in Hf as (Hch & Hn & Hs & Hrest).
  destruct i as [|i]; simpl in Hi.
  - injection Hi as <-. repeat split; try done. lia.
  - destruct (IH _ i im Hrest Hi) as (? & ? & ?).
    repeat split; try done. lia.
Qed.

(** Along a run of follow-ups that settles, the last-applied number of the
    entity counts the messages applied that wrote it, and once the writing
    ones have all been applied the entity is the final one. *)
Lemma followUps_entity (ch : string) (rest : list IncomingMessage) :
  ∀ (n : Z) (r : Rocket) (k : nat),
    followUps ch n rest = true →
    settles (status r) rest = true →
    lastMessageNumber r = n - 1 →
    (k ≤ length rest)%nat →
    lastMessageNumber (foldl transition r (take k rest))
    = n - 1 + Z.of_nat (k `min` writingPrefix (status r) rest)
    ∧ ((writingPrefix (status r) rest ≤ k)%nat →
       foldl transition r (take k rest) = foldl transition r rest).
Proof.
  induction rest as [|a rest IH]; intros n r k Hf Hset Hl Hk.
  - simpl in Hk. assert (k = 0)%nat as -> by lia. simpl. split; [lia|done].
  - apply followUps_cons in Hf as (Hch & Hn & Hs & Hrest).
    simpl in Hset. cbn [writingPrefix].
    destruct (writesEntity (status r) (messageType (metadata a))) eqn:Hw.
    + destruct k as [|k]; simpl; [split; lia|].
      destruct (transition_writes r a Hs Hw) as [Hlast Hstatus].
      rewrite <- Hstatus in Hset |- *.
      destruct (IH (n + 1) (transition r a) k Hrest Hset) as [Hl' Hfin].
      * lia.
      * simpl in Hk. lia.
      * split; [lia|]. intros Hle. apply Hfin. lia.
    + assert (Hall : allIgnored (status r) (a :: rest) = true).
      { simpl. by rewrite Hw, Hset. }
      rewrite (foldl_ignored r (a :: rest) Hall).
      rewrite (foldl_ignored r (take k (a :: rest)))
        by (by apply allIgnored_take).
      split; [lia|done].
Qed.

Lemma size_delete_buffered (m : gmap (string * Z) CreateMessageData)
    (k : string * Z) (b : CreateMessageData) :
  m !! k = Some b → size m = S (size (delete k m)).
Proof.
  intros H. rewrite <- (insert_delete_id m k b) at 1 by done.
  apply map_size_insert_None, lookup_delete_eq.
Qed.

Section Reordering.
Variable ch : string.
Variable r0 : Rocket.
Variable rest : list IncomingMessage.
Hypothesis Hrest : followUps ch 2 rest = true.
Hypothesis Hsettles : settles (status r0) rest = true.
Hypothesis Hlast0 : lastMessageNumber r0 = 1.

Lemma followUp_at (i : nat) (im : IncomingMessage) :
  rest !! i = Some im →
  channel (metadata im) = ch
  ∧ messageNumber (metadata im) = 2 + Z.of_nat i
  ∧ wellShapedMessage im = true.
Proof. intros Hi. by eapply followUps_lookup. Qed.

Lemma followUpIndex_at (i : nat) (im : IncomingMessage) :
  rest !! i = Some im → followUpIndex im = i.
Proof.
  intros Hi. destruct (followUp_at i im Hi) as (_ & Hn & _).
  unfold followUpIndex. lia.
Qed.

(** The last-applied number counts the messages applied that wrote the
    entity. *)
Lemma entityAfter_last (k : nat) :
  (k ≤ length rest)%nat →
  lastMessageNumber (entityAfter r0 rest k)
  = 1 + Z.of_nat (k `min` writingPrefix (status r0) rest).
Proof.
  intros Hk. unfold entityAfter.
  destruct (followUps_entity ch rest 2 r0 k) as [H _]; try done; lia.
Qed.

(** Once the messages that write the entity have been applied, the entity
    is the final one. *)
Lemma entityAfter_settled (k : nat) :
  (k ≤ length rest)%nat →
  (writingPrefix (status r0) rest ≤ k)%nat →
  entityAfter r0 rest k = foldl transition r0 rest.
Proof.
  intros Hk Hw. unfold entityAfter.
  destruct (followUps_entity ch rest 2 r0 k) as [_ H]; try done; try lia.
  by apply H.
Qed.

Lemma entityAfter_S (k : nat) (im : IncomingMessage) :
  rest !! k = Some im →
  transition (entityAfter r0 rest k) im = entityAfter r0 rest (S k).
Proof.
  intros Hk. unfold entityAfter.
  by rewrite (take_S_r rest k im Hk), foldl_snoc.
Qed.

(** Draining from the next position applies the follow-ups that were sent
    ahead of their turn, up to the first position that was not sent. *)
Lemma Draining_drain (sent : gset nat) :
  ∀ (f k : nat) (st : Store),
    (size (bufferedMessages st) < f)%nat →
    Draining ch r0 rest sent k st →
    ∃ k', Sequenced ch r0 rest sent k' (drain f ch (2 + Z.of_nat k) st).1.
Proof.
  induction f as [|f IH]; intros k st Hf Hd; [lia|].
  destruct Hd as [Hbound Hentity Happlied Hsent Hmsgs Hbuf].
  destruct (decide (k ∈ sent)) as [Hin|Hout].
  - pose proof (Hsent k Hin) as Hlt.
    destruct (lookup_lt_is_Some_2 rest k Hlt) as [im Him].
    destruct (followUp_at k im Him) as (Hch & Hn & Hs).
    pose proof (Hbuf k (le_n k)) as Hbk.
    rewrite decide_True, Him in Hbk by done. simpl in Hbk.
    rewrite (drain_found f ch (2 + Z.of_nat k) (rowOf im)
               (entityAfter r0 rest k) st); try done; [|by apply Hmsgs].
    replace (2 + Z.of_nat k + 1) with (2 + Z.of_nat (S k)) by lia.
    apply IH.
    + simpl. rewrite (size_delete_buffered _ _ _ Hbk) in Hf. lia.
    + split; try done.
      * simpl. rewrite lookup_insert_eq. f_equal.
        rewrite <- (entityAfter_S k im Him). f_equal.
        rewrite <- Hch at 1. rewrite <- Hn. apply reconstruct_rowOf.
      * intros i Hi. destruct (decide (i = k)) as [->|]; [done|].
        apply Happlied. lia.
      * intros i Hi. simpl. rewrite lookup_insert_ne; [apply Hmsgs; lia|].
        intros [= ?]. lia.
      * intros i Hi. simpl. rewrite lookup_delete_ne; [apply Hbuf; lia|].
        intros [= ?]. lia.
  - pose proof (Hbuf k (le_n k)) as Hbk.
    rewrite decide_False in Hbk by done.
    rewrite drain_missing by done.
    exists k. split; [by split|by left].
Qed.

(** Submitting a follow-up that has not been sent yet: it is applied, with
    the drain behind it, when it is the next one and the last-applied
    number has kept up; otherwise it is buffered. *)
Lemma Sequenced_submit (sent : gset nat) (k j : nat) (st : Store)
    (im : IncomingMessage) :
  Sequenced ch r0 rest sent k st →
  rest !! j = Some im →
  j ∉ sent →
  ∃ k', Sequenced ch r0 rest (sent ∪ {[j]}) k' (processMessage im st).1.
Proof.
  intros [Hd Hgap] Hj Hnew.
  destruct Hd as [Hbound Hentity Happlied Hsent Hmsgs Hbuf].
  destruct (followUp_at j im Hj) as (Hch & Hn & Hs).
  pose proof (lookup_lt_Some _ _ _ Hj) as Hjlt.
  assert (Hkj : (k ≤ j)%nat).
  { destruct (decide (j < k)%nat) as [Hlt|]; [|lia].
    by specialize (Happlied j Hlt). }
  assert (Hm : messages st !! (channel (metadata im), messageNumber (metadata im))
               = None).
  { rewrite Hch, Hn. by apply Hmsgs. }
  assert (Hb : bufferedMessages st
                 !! (channel (metadata im), messageNumber (metadata im)) = None).
  { rewrite Hch, Hn, Hbuf by done. by rewrite decide_False. }
  pose proof (entityAfter_last k Hbound) as Hlast.
  assert (Hsame : ∀ i : nat, i ≠ j →
            (if decide (i ∈ sent ∪ {[j]}) then rowOf <$> rest !! i else None)
            = (if decide (i ∈ sent) then rowOf <$> rest !! i else None)).
  { intros i Hi.
    destruct (decide (i ∈ sent)) as [H1|H1],
      (decide (i ∈ sent ∪ {[j]})) as [H2|H2]; try done; exfalso.
    - apply H2. by apply elem_of_union_l.
    - apply elem_of_union in H2 as [H2|H2%elem_of_singleton]; done. }
  destruct (decide (j = k ∧ k ≤ writingPrefix (status r0) rest)%nat)
    as [[-> Hkw]|Hahead].
  - (* the next follow-up, the last-applied number having kept up *)
    rewrite Nat.min_l in Hlast by done.
    pose proof (processMessage_apply im st Hm Hb) as Hpm.
    rewrite Hch, Hn, Hentity, Hlast in Hpm. cbv beta iota in Hpm.
    rewrite Hpm by lia. clear Hpm.
    pose proof (applyStateChange_existing st (entityAfter r0 rest k) im) as Happ.
    rewrite Hch in Happ. specialize (Happ Hentity Hs).
    pose proof (applyAndDrain_applied im st Hm _ _ _ Happ) as Hdrain.
    rewrite Hch, Hn in Hdrain. rewrite Hdrain. clear Hdrain.
    simpl. unfold processBufferedMessages.
    replace (2 + Z.of_nat k + 1) with (2 + Z.of_nat (S k)) by lia.
    apply Draining_drain; [simpl; lia|].
    split.
    + lia.
    + simpl. rewrite lookup_insert_eq. f_equal. by apply entityAfter_S.
    + intros i Hi. destruct (decide (i = k)) as [->|].
      * by apply elem_of_union_r, elem_of_singleton.
      * apply elem_of_union_l, Happlied. lia.
    + intros i [Hi| ->%elem_of_singleton]%elem_of_union; [by apply Hsent|done].
    + intros i Hi. simpl. rewrite lookup_insert_ne; [apply Hmsgs; lia|].
      intros [= ?]. lia.
    + intros i Hi. simpl. rewrite Hsame by lia. apply Hbuf. lia.
  - (* a follow-up ahead of the last-applied number *)
    assert (Hmin : (k `min` writingPrefix (status r0) rest < j)%nat) by lia.
    pose proof (processMessage_future im st Hm Hb (entityAfter r0 rest k)) as Hpm.
    rewrite Hch, Hn, Hlast in Hpm. rewrite Hpm by (done || lia). clear Hpm.
    simpl. exists k. split; [split|]; try done.
    + intros i Hi. by apply elem_of_union_l, Happlied.
    + intros i [Hi| ->%elem_of_singleton]%elem_of_union; [by apply Hsent|done].
    + intros i Hi. simpl.
      destruct (decide (i = j)) as [->|Hij].
      * rewrite lookup_insert_eq, decide_True, Hj; [done|].
        by apply elem_of_union_r, elem_of_singleton.
      * rewrite lookup_insert_ne by (intros [= ?]; lia).
        rewrite Hsame by done. by apply Hbuf.
    + destruct (decide (writingPrefix (status r0) rest < k)%nat) as [|Hle];
        [by right|left].
      destruct Hgap as [Hgap|]; [|lia].
      intros [H1|H1%elem_of_singleton]%elem_of_union; [done|].
      subst j. apply Hahead. split; [done|lia].
Qed.

Lemma followUpIndex_rest : followUpIndex <$> rest = seq 0 (length rest).
Proof.
  apply list_eq. intros i. rewrite list_lookup_fmap.
  destruct (rest !! i) as [im|] eqn:Hi; simpl.
  - rewrite (followUpIndex_at i im Hi).
    symmetry. apply lookup_seq_lt. by eapply lookup_lt_Some.
  - symmetry. apply lookup_seq_ge. by apply lookup_ge_None.
Qed.

(** Submitting follow-ups that have not been sent yet, in any order. *)
Lemma Sequenced_run (q : list IncomingMessage) :
  ∀ (sent : gset nat) (k : nat) (st : Store),
    Sequenced ch r0 rest sent k st →
    (∀ im, im ∈ q → rest !! followUpIndex im = Some im) →
    NoDup (followUpIndex <$> q) →
    (∀ im, im ∈ q → followUpIndex im ∉ sent) →
    ∃ k', Sequenced ch r0 rest
            (sent ∪ list_to_set (followUpIndex <$> q)) k' (submitAll q st).
Proof.
  induction q as [|a q IH]; intros sent k st Hseq Hin Hnd Hnew.
  - exists k. simpl. by rewrite union_empty_r_L.
  - rewrite fmap_cons in Hnd. apply NoDup_cons in Hnd as [Ha Hnd].
    destruct (Sequenced_submit sent k (followUpIndex a) st a Hseq) as [k1 H1].
    { apply Hin. by left. }
    { apply Hnew. by left. }
    destruct (IH _ k1 _ H1) as [k' H'].
    + intros im Him. apply Hin. by right.
    + done.
    + intros im Him [Hs|Heq%elem_of_singleton]%elem_of_union.
      * by apply (Hnew im); [right|].
      * apply Ha. rewrite <- Heq. by apply list_elem_of_fmap_2.
    + exists k'. rewrite fmap_cons, list_to_set_cons, (assoc_L (∪)).
      exact H'.
Qed.

(** Once every follow-up has been submitted, in whatever order, the entity
    is the one that applying all of them in ascending order gives. *)
Lemma Sequenced_all (p : list IncomingMessage) (st : Store) :
  Sequenced ch r0 rest ∅ 0 st →
  p ≡ₚ rest →
  rockets (submitAll p st) !! ch = Some (foldl transition r0 rest).
Proof.
  intros Hseq Hp.
  assert (Hidx : followUpIndex <$> p ≡ₚ seq 0 (length rest)).
  { rewrite <- followUpIndex_rest. by apply fmap_Permutation. }
  destruct (Sequenced_run p ∅ 0%nat st Hseq) as [k' [Hd Hgap]].
  - intros im Him. rewrite Hp in Him.
    apply list_elem_of_lookup_1 in Him as [i Hi].
    by rewrite (followUpIndex_at i im Hi).
  - rewrite Hidx. apply NoDup_seq.
  - intros im _. apply not_elem_of_empty.
  - destruct Hd as [Hbound Hentity _ _ _ _].
    rewrite Hentity. f_equal.
    destruct Hgap as [Hgap|Hgap].
    + assert (k' = length rest) as ->.
      { destruct (decide (k' < length rest)%nat) as [Hlt|]; [|lia].
        exfalso. apply Hgap. apply elem_of_union_r, elem_of_list_to_set.
        rewrite Hidx. apply elem_of_seq. lia. }
      unfold entityAfter. by rewrite firstn_all.
    + apply entityAfter_settled; [done|lia].
Qed.
End Reordering.

(** The launch of a fresh channel creates the entity, is audited, and finds
    nothing to drain. *)
Lemma processMessage_launch (ch : string) (first : IncomingMessage)
    (t : string) (s : Z) (m : string) (st : Store) :
  channel (metadata first) = ch →
  messageNumber (metadata first) = 1 →
  messageType (metadata first) = ROCKET_LAUNCHED →
  message first = RocketLaunchedPayload t s m →
  freshChannel ch st →
  (processMessage first st).1
  = set_messages (insert (ch, 1) (rowOf first))
      (set_rockets (insert ch (launched first t s m)) st).
Proof.
  intros Hch Hn Ht Hp (Hr & Hm & Hb).
  assert (Happ : applyStateChange None first st
                 = (set_rockets (insert ch (launched first t s m)) st,
                    Ok (launched first t s m))).
  { destruct first as [[c n tm ty] pl]. simpl in *. subst.
    run_monad. by rewrite Hr. }
  pose proof (processMessage_apply first st) as Hpm.
  rewrite Hch, Hn, Hr in Hpm. rewrite Hpm by done. clear Hpm.
  pose proof (applyAndDrain_applied first st) as Hdrain.
  rewrite Hch, Hn in Hdrain. rewrite (Hdrain (Hm 1) _ _ _ Happ). clear Hdrain.
  simpl. unfold processBufferedMessages. by rewrite drain_missing.
Qed.

(** C1 (the claim as the code has it): let a channel without any row
    receive first the launch numbered 1 and then, each exactly once, the
    messages numbered 2..N, where in ascending order no message that
    writes the entity comes after one that does not (a further launch, and
    a speed or mission change of an exploded rocket, do not write it).
    Then the messages 2..N may be submitted in any order: the final entity
    is the one that the ascending order 1, 2, ..., N produces. *)
Theorem reordering_after_launch (ch : string) (first : IncomingMessage)
    (rest p : list IncomingMessage) (st : Store) :
  launchSequence ch first rest = true →
  freshChannel ch st →
  p ≡ₚ rest →
  ∃ r, entity ch (submitAll (first :: p) st) = Some r
       ∧ entity ch (submitAll (first :: rest) st) = Some r.
Proof.
  intros Hseq Hfresh Hp. unfold launchSequence in Hseq.
  rewrite !andb_true_iff, !bool_decide_eq_true in Hseq.
  destruct Hseq as (((((Hch & Hn) & Ht) & Hs) & Hrest) & Hsettles).
  assert (∃ t s m, message first = RocketLaunchedPayload t s m)
    as (t & s & m & Hpl).
  { unfold wellShapedMessage in Hs. rewrite Ht in Hs.
    destruct (message first); try discriminate. eauto. }
  set (r0 := launched first t s m).
  assert (Hlast0 : lastMessageNumber r0 = 1) by done.
  assert (Hstart : Sequenced ch r0 rest ∅ 0 (processMessage first st).1).
  { rewrite (processMessage_launch ch first t s m st) by done.
    destruct Hfresh as (Hr & Hm & Hb).
    split; [split|left; apply not_elem_of_empty].
    - lia.
    - simpl. by rewrite lookup_insert_eq.
    - intros i Hi. lia.
    - intros i Hi. by apply not_elem_of_empty in Hi.
    - intros i _. simpl. rewrite lookup_insert_ne; [done|].
      intros [= ?]. lia.
    - intros i _. simpl. by rewrite decide_False by apply not_elem_of_empty. }
  assert (Hany : ∀ q, q ≡ₚ rest →
            entity ch (submitAll (first :: q) st)
            = Some (foldl transition r0 rest)).
  { intros q Hq. simpl. unfold entity.
    by apply (Sequenced_all ch r0 rest Hrest Hsettles Hlast0). }
  exists (foldl transition r0 rest).
  split; by apply Hany.
Qed.

Lemma reordering_after_launch_witness :
  ∃ r, entity sampleChannel
         (submitAll
            [launch 1; changeMission 5 "M"; speedUp 4 10; explode 3 "X";
             speedUp 2 500] emptyStore)
       = Some r
       ∧ entity sampleChannel
           (submitAll
              [launch 1; speedUp 2 500; explode 3 "X"; speedUp 4 10;
               changeMission 5 "M"] emptyStore)
         = Some r.
Proof.
  apply (reordering_after_launch sampleChannel (launch 1)
           [speedUp 2 500; explode 3 "X"; speedUp 4 10; changeMission 5 "M"]
           [changeMission 5 "M"; speedUp 4 10; explode 3 "X"; speedUp 2 500]
           emptyStore).
  - vm_compute. reflexivity.
  - repeat split; intros; apply lookup_empty.
  - symmetry. apply (reverse_Permutation
                       [changeMission 5 "M"; speedUp 4 10; explode 3 "X";
                        speedUp 2 500]).
Defined.

(** C1 (the claim as stated fails), twice.  Submitting SpeedIncrease(2)
    before Create(1) makes the former fail for want of an entity, and it is
    lost: the final speed is 500, not 1000.  And with Create(1),
    Terminate(2), SpeedIncrease(3), Terminate(4) the ascending order leaves
    message 4 in the buffer for ever (message 3 did not advance the
    last-applied number), whereas the order 1, 2, 4, 3 drains it. *)
Lemma reordering_changes_final_entity :
  ([speedUp 2 500; launch 1] ≡ₚ [launch 1; speedUp 2 500]
   ∧ entity sampleChannel (submitAll [speedUp 2 500; launch 1] emptyStore)
     ≠ entity sampleChannel (submitAll [launch 1; speedUp 2 500] emptyStore))
  ∧ ([launch 1; explode 2 "X"; explode 4 "Y"; speedUp 3 999]
     ≡ₚ [launch 1; explode 2 "X"; speedUp 3 999; explode 4 "Y"]
     ∧ entity sampleChannel
         (submitAll [launch 1; explode 2 "X"; explode 4 "Y"; speedUp 3 999]
            emptyStore)
       ≠ entity sampleChannel
           (submitAll [launch 1; explode 2 "X"; speedUp 3 999; explode 4 "Y"]
              emptyStore)).
Proof.
  split; split.
  - apply perm_swap.
  - vm_compute. congruence.
  - do 2 apply perm_skip. apply perm_swap.
  - vm_compute. congruence.
Qed.

(** ** Statistics *)










(** ** What a submission can do to the entity table *)

(** [applyStateChange], given the stored entity of the channel, leaves the
    entity table as it is, or writes [transition] over the stored row, or
    creates the launched row. *)
Lemma applyStateChange_rockets (st : Store) (im : IncomingMessage) :
  rockets (applyStateChange (rockets st !! channel (metadata im)) im st).1
    = rockets st
  ∨ (∃ r, rockets st !! channel (metadata im) = Some r
          ∧ rockets (applyStateChange (Some r) im st).1
            = <[channel (metadata im) := transition r im]> (rockets st))
  ∨ (∃ t s m, rockets st !! channel (metadata im) = None
              ∧ rockets (applyStateChange None im st).1
                = <[channel (metadata im) := launched im t s m]> (rockets st)).
Proof.
  destruct (rockets st !! channel (metadata im)) as [r|] eqn:Hr.
  - destruct (wellShapedMessage im) eqn:Hs.
    + right. left. exists r. split; [done|].
      by rewrite applyStateChange_existing.
    + left. destruct im as [[ch n t ty] p]. simpl in *.
      unfold wellShapedMessage in Hs. simpl in Hs.
      destruct ty, p; simpl in Hs; try discriminate; run_monad;
        try reflexivity; destruct (status r); reflexivity.
  - destruct im as [[ch n t ty] p]. simpl in *.
    destruct ty; try (left; reflexivity).
    destruct p; try (left; reflexivity).
    right. right. do 3 eexists. split; [done|].
    run_monad. by rewrite Hr.
Qed.

Lemma transition_keeps_exploded (r : Rocket) (im : IncomingMessage) :
  status r = EXPLODED →
  currentSpeed r = 0 →
  rocketType (transition r im) = rocketType r
  ∧ currentSpeed (transition r im) = currentSpeed r
  ∧ rocketMission (transition r im) = rocketMission r
  ∧ status (transition r im) = EXPLODED.
Proof.
  destruct im as [[ch n t ty] p], r as [rt rs rm rst rr rl rtm].
  simpl. intros -> ->. unfold transition. simpl.
  destruct ty, p; simpl; done.
Qed.

Lemma transition_at_rest (r : Rocket) (im : IncomingMessage) :
  (status r = EXPLODED → currentSpeed r = 0) →
  status (transition r im) = EXPLODED →
  currentSpeed (transition r im) = 0.
Proof.
  destruct im as [[ch n t ty] p], r as [rt rs rm rst rr rl rtm].
  simpl. unfold transition. simpl.
  destruct ty, p, rst; simpl; intros H1 H2; try done; by apply H1.
Qed.

Section EntityTable.
Variable R : gmap string Rocket → gmap string Rocket → Prop.
Hypothesis R_refl : ∀ m, R m m.
Hypothesis R_trans : ∀ m1 m2 m3, R m1 m2 → R m2 m3 → R m1 m3.
Hypothesis R_apply : ∀ st im,
  R (rockets st)
    (rockets (applyStateChange (rockets st !! channel (metadata im)) im st).1).

(** A relation on entity tables that [applyStateChange] respects is
    respected by the drain and by a whole submission, whichever exit is
    taken and even when the submission fails. *)
Lemma drain_entity_table (f : nat) (ch : string) :
  ∀ (n : Z) (st : Store), R (rockets st) (rockets (drain f ch n st).1).
Proof.
  induction f as [|f IH]; intros n st; [apply R_refl|].
  rewrite drain_unfold.
  destruct (bufferedMessages st !! (ch, n)) as [b|]; [|apply R_refl].
  destruct (rockets st !! ch) as [r|] eqn:Hr; [|apply R_refl].
  pose proof (R_apply st (reconstruct ch n b)) as Happ.
  simpl in Happ. rewrite Hr in Happ.
  destruct (applyStateChange (Some r) (reconstruct ch n b) st) as [st1 [r1|e]];
    [|exact Happ].
  simpl in Happ.
  destruct (messages st1 !! (ch, n)); [exact Happ|].
  eapply R_trans; [exact Happ|].
  apply (IH (n + 1)
           (set_buffered (delete (ch, n)) (set_messages (insert (ch, n) b) st1))).
Qed.

Lemma processMessage_entity_table (im : IncomingMessage) (st : Store) :
  R (rockets st) (rockets (processMessage im st).1).
Proof.
  destruct (messages st !! (channel (metadata im), messageNumber (metadata im)))
    as [x|] eqn:Hm.
  { rewrite processMessage_duplicate by eauto. apply R_refl. }
  destruct (bufferedMessages st
              !! (channel (metadata im), messageNumber (metadata im)))
    as [x|] eqn:Hb.
  { rewrite processMessage_buffered_duplicate by eauto. apply R_refl. }
  assert (Happly :
    match rockets st !! channel (metadata im) with
    | None => True
    | Some r => lastMessageNumber r ≤ messageNumber (metadata im)
                ≤ lastMessageNumber r + 1
    end →
    R (rockets st) (rockets (processMessage im st).1)).
  { intros Hord. rewrite processMessage_apply by done.
    pose proof (R_apply st im) as Happ.
    destruct (applyStateChange (rockets st !! channel (metadata im)) im st)
      as [st1 [r1|e]] eqn:Hres.
    - rewrite (applyAndDrain_applied im st Hm _ _ _ Hres).
      eapply R_trans; [exact Happ|]. simpl.
      apply (drain_entity_table _ _ _
               (set_messages
                  (insert (channel (metadata im), messageNumber (metadata im))
                     (rowOf im)) st1)).
    - by rewrite (applyAndDrain_failed im st _ _ _ Hres). }
  destruct (rockets st !! channel (metadata im)) as [r|] eqn:Hr;
    [|by apply Happly].
  destruct (Z.lt_ge_cases (messageNumber (metadata im)) (lastMessageNumber r)).
  { rewrite (processMessage_out_of_order im st Hm Hb r) by done. apply R_refl. }
  destruct (Z.lt_ge_cases (lastMessageNumber r + 1) (messageNumber (metadata im))).
  { rewrite (processMessage_future im st Hm Hb r) by done. apply R_refl. }
  apply Happly. lia.
Qed.
End EntityTable.

(** ** Invariants of the store *)

Lemma keepsExploded_refl (m : gmap string Rocket) : keepsExploded m m.
Proof. intros ch r Hr He _. by exists r. Qed.

Lemma keepsExploded_trans (m1 m2 m3 : gmap string Rocket) :
  keepsExploded m1 m2 → keepsExploded m2 m3 → keepsExploded m1 m3.
Proof.
  intros H12 H23 ch r Hr He Hs.
  destruct (H12 ch r Hr He Hs) as (r2 & Hr2 & Ht2 & Hs2 & Hm2 & He2).
  destruct (H23 ch r2 Hr2 He2 ltac:(congruence))
    as (r3 & Hr3 & Ht3 & Hs3 & Hm3 & He3).
  exists r3. repeat split; congruence.
Qed.

Lemma keepsExploded_apply (st : Store) (im : IncomingMessage) :
  keepsExploded (rockets st)
    (rockets (applyStateChange (rockets st !! channel (metadata im)) im st).1).
Proof.
  destruct (applyStateChange_rockets st im)
    as [-> | [(r0 & Hr0 & Hw) | (t & s & m & Hr0 & Hw)]];
    [apply keepsExploded_refl| |]; rewrite Hr0, Hw; intros ch r Hr He Hs.
  - destruct (decide (ch = channel (metadata im))) as [->|Hne].
    + assert (r = r0) as -> by congruence.
      exists (transition r0 im). rewrite lookup_insert_eq. split; [done|].
      by apply transition_keeps_exploded.
    + exists r. by rewrite lookup_insert_ne.
  - exists r. rewrite lookup_insert_ne; [done|]. congruence.
Qed.

Lemma explodedAtRest_apply (st : Store) (im : IncomingMessage) :
  explodedAtRest (rockets st) →
  explodedAtRest
    (rockets (applyStateChange (rockets st !! channel (metadata im)) im st).1).
Proof.
  intros Hrest.
  destruct (applyStateChange_rockets st im)
    as [-> | [(r0 & Hr0 & Hw) | (t & s & m & Hr0 & Hw)]];
    [done| |]; rewrite Hr0, Hw; intros ch r Hr He.
  - destruct (decide (ch = channel (metadata im))) as [->|Hne].
    + rewrite lookup_insert_eq in Hr. injection Hr as <-.
      apply transition_at_rest; [|done]. by apply (Hrest _ _ Hr0).
    + rewrite lookup_insert_ne in Hr by done. by apply (Hrest ch).
  - destruct (decide (ch = channel (metadata im))) as [->|Hne].
    + rewrite lookup_insert_eq in Hr. injection Hr as <-. discriminate.
    + rewrite lookup_insert_ne in Hr by done. by apply (Hrest ch).
Qed.

(** No submission changes the type, speed, mission or status of a rocket
    that has exploded. *)
Lemma processMessage_keepsExploded (im : IncomingMessage) (st : Store) :
  keepsExploded (rockets st) (rockets (processMessage im st).1).
Proof.
  apply processMessage_entity_table.
  - apply keepsExploded_refl.
  - apply keepsExploded_trans.
  - apply keepsExploded_apply.
Qed.

Lemma processMessage_explodedAtRest (im : IncomingMessage) (st : Store) :
  explodedAtRest (rockets st) →
  explodedAtRest (rockets (processMessage im st).1).
Proof.
  apply (processMessage_entity_table
           (λ m m', explodedAtRest m → explodedAtRest m')); try done.
  - intros m1 m2 m3 H12 H23 H1. by apply H23, H12.
  - intros st' im'. apply explodedAtRest_apply.
Qed.

Lemma drain_unaudited (f : nat) (ch : string) :
  ∀ (n : Z) (st : Store),
    bufferUnaudited st → bufferUnaudited (drain f ch n st).1.
Proof.
  induction f as [|f IH]; intros n st Hinv; [done|].
  rewrite drain_unfold.
  destruct (bufferedMessages st !! (ch, n)) as [b|] eqn:Hb; [|done].
  destruct (rockets st !! ch) as [r|] eqn:Hr.
  - destruct (applyStateChange_frame st (Some r) (reconstruct ch n b))
      as [Hfm Hfb].
    destruct (applyStateChange (Some r) (reconstruct ch n b) st)
      as [st1 [r1|e]]; simpl in Hfm, Hfb.
    + assert (Hinv1 : bufferUnaudited st1).
      { intros k Hk. rewrite Hfm. apply Hinv. by rewrite <- Hfb. }
      destruct (messages st1 !! (ch, n)); [done|].
      apply IH. intros k. simpl. rewrite Hfb, Hfm.
      destruct (decide (k = (ch, n))) as [->|Hne].
      * rewrite lookup_delete_eq. by intros [? ?].
      * rewrite lookup_delete_ne, lookup_insert_ne by done. apply Hinv.
    + intros k Hk. simpl. rewrite Hfm. apply Hinv. by rewrite <- Hfb.
  - intros k. simpl.
    destruct (decide (k = (ch, n))) as [->|Hne].
    + rewrite lookup_delete_eq. by intros [? ?].
    + rewrite lookup_delete_ne by done. apply Hinv.
Qed.

Lemma processMessage_unaudited (im : IncomingMessage) (st : Store) :
  bufferUnaudited st → bufferUnaudited (processMessage im st).1.
Proof.
  intros Hinv.
  destruct (messages st !! (channel (metadata im), messageNumber (metadata im)))
    as [x|] eqn:Hm.
  { by rewrite processMessage_duplicate by eauto. }
  destruct (bufferedMessages st
              !! (channel (metadata im), messageNumber (metadata im)))
    as [x|] eqn:Hb.
  { by rewrite processMessage_buffered_duplicate by eauto. }
  assert (Haudit : ∀ st1,
            messages st1 = messages st →
            bufferedMessages st1 = bufferedMessages st →
            bufferUnaudited
              (set_messages
                 (insert (channel (metadata im), messageNumber (metadata im))
                    (rowOf im)) st1)).
  { intros st1 Hfm Hfb k. simpl. rewrite Hfm, Hfb. intros Hk.
    rewrite lookup_insert_ne; [by apply Hinv|].
    intros <-. rewrite Hb in Hk. by destruct Hk. }
  assert (Happly :
    match rockets st !! channel (metadata im) with
    | None => True
    | Some r => lastMessageNumber r ≤ messageNumber (metadata im)
                ≤ lastMessageNumber r + 1
    end →
    bufferUnaudited (processMessage im st).1).
  { intros Hord. rewrite processMessage_apply by done.
    destruct (applyStateChange_frame st (rockets st !! channel (metadata im)) im)
      as [Hfm Hfb].
    destruct (applyStateChange (rockets st !! channel (metadata im)) im st)
      as [st1 [r1|e]] eqn:Hres; simpl in Hfm, Hfb.
    - rewrite (applyAndDrain_applied im st Hm _ _ _ Hres). simpl.
      apply drain_unaudited. by apply Haudit.
    - rewrite (applyAndDrain_failed im st _ _ _ Hres). simpl.
      intros k Hk. rewrite Hfm. apply Hinv. by rewrite <- Hfb. }
  destruct (rockets st !! channel (metadata im)) as [r|] eqn:Hr;
    [|by apply Happly].
  destruct (Z.lt_ge_cases (messageNumber (metadata im)) (lastMessageNumber r)).
  { rewrite (processMessage_out_of_order im st Hm Hb r) by done.
    by apply Haudit. }
  destruct (Z.lt_ge_cases (lastMessageNumber r + 1) (messageNumber (metadata im))).
  { rewrite (processMessage_future im st Hm Hb r) by done.
    intros k. simpl.
    destruct (decide (k = (channel (metadata im), messageNumber (metadata im))))
      as [->|Hne]; [done|].
    rewrite lookup_insert_ne by done. apply Hinv. }
  apply Happly. lia.
Qed.

(** Every store that submissions reach from the empty one has no audited
    row in its buffer, and its exploded rockets have speed 0. *)
Lemma submitAll_invariants (ims : list IncomingMessage) :
  ∀ st, bufferUnaudited st → explodedAtRest (rockets st) →
        bufferUnaudited (submitAll ims st)
        ∧ explodedAtRest (rockets (submitAll ims st)).
Proof.
  induction ims as [|im ims IH]; intros st H1 H2; [done|].
  simpl. apply IH.
  - by apply processMessage_unaudited.
  - by apply processMessage_explodedAtRest.
Qed.

Lemma emptyStore_invariants :
  bufferUnaudited emptyStore ∧ explodedAtRest (rockets emptyStore).
Proof.
  split.
  - intros k [x Hx]. simpl in Hx. by rewrite lookup_empty in Hx.
  - intros ch r Hr. simpl in Hr. by rewrite lookup_empty in Hr.
Qed.

Lemma submitAll_keepsExploded (ims : list IncomingMessage) :
  ∀ st, keepsExploded (rockets st) (rockets (submitAll ims st)).
Proof.
  induction ims as [|im ims IH]; intros st; [apply keepsExploded_refl|].
  simpl. eapply keepsExploded_trans; [apply processMessage_keepsExploded|].
  apply IH.
Qed.

(** ** Exploded rockets *)

(** C7 (the claim as the code has it): for an entity in EXPLODED status
    (whose speed is 0), no submission and no sequence of submissions
    changes type, speed, mission or status.  Applied to such an entity,
    every event kind but Terminate leaves the whole row, terminal-reason
    included, as it is and writes nothing; a further Terminate overwrites
    the terminal-reason with the reason of the new event and advances the
    last-applied sequence number. *)
Theorem exploded_rocket_is_final (st : Store) (ch : string) (r : Rocket) :
  rockets st !! ch = Some r →
  status r = EXPLODED →
  currentSpeed r = 0 →
  (∀ ims, ∃ r', entity ch (submitAll ims st) = Some r'
                ∧ rocketType r' = rocketType r
                ∧ currentSpeed r' = currentSpeed r
                ∧ rocketMission r' = rocketMission r
                ∧ status r' = EXPLODED)
  ∧ (∀ im st' r',
       channel (metadata im) = ch →
       applyStateChange (Some r) im st = (st', Ok r') →
       (messageType (metadata im) ≠ ROCKET_EXPLODED → r' = r ∧ st' = st)
       ∧ (messageType (metadata im) = ROCKET_EXPLODED →
          ∃ reason, message im = RocketExplodedPayload reason
                    ∧ explosionReason r' = Some reason
                    ∧ lastMessageNumber r' = messageNumber (metadata im)
                    ∧ rockets st' !! ch = Some r')).
Proof.
  intros Hr He Hs. split.
  - intros ims. by apply (submitAll_keepsExploded ims st ch r).
  - intros im st' r' Hch Happ.
    destruct im as [[c n t ty] p]. simpl in *. subst c.
    destruct ty; revert Happ; run_monad; rewrite ?He; simpl.
    + intros [= <- <-]. by split.
    + intros [= <- <-]. by split.
    + intros [= <- <-]. by split.
    + destruct p; simpl; try discriminate. rewrite Hr.
      intros [= <- <-]. simpl. split; [done|]. intros _.
      eexists. rewrite lookup_insert_eq. by repeat split.
    + intros [= <- <-]. by split.
Qed.

Lemma exploded_rocket_is_final_witness :
  ∃ r', entity sampleChannel
          (submitAll [explode 3 "Y"; speedUp 4 10; changeMission 5 "SHUTTLE_MIR"]
             (submitAll [launch 1; explode 2 "X"] emptyStore))
        = Some r'
        ∧ rocketType r' = "Falcon-9"
        ∧ currentSpeed r' = 0
        ∧ rocketMission r' = "ARTEMIS"
        ∧ status r' = EXPLODED.
Proof.
  destruct (exploded_rocket_is_final
              (submitAll [launch 1; explode 2 "X"] emptyStore) sampleChannel
              (transition (launched (launch 1) "Falcon-9" 500 "ARTEMIS")
                 (explode 2 "X")))
    as [Hkept _];
    [vm_compute; reflexivity | reflexivity | reflexivity |].
  exact (Hkept [explode 3 "Y"; speedUp 4 10; changeMission 5 "SHUTTLE_MIR"]).
Defined.

(** C7 (the claim as stated fails): a second Terminate with another reason
    replaces the terminal-reason of an entity that is already EXPLODED. *)
Lemma second_explosion_changes_reason :
  status <$> entity sampleChannel (submitAll [launch 1; explode 2 "X"] emptyStore)
    = Some EXPLODED
  ∧ explosionReason
      <$> entity sampleChannel (submitAll [launch 1; explode 2 "X"] emptyStore)
    = Some (Some "X")
  ∧ explosionReason
      <$> entity sampleChannel
            (submitAll [launch 1; explode 2 "X"; explode 3 "Y"] emptyStore)
    = Some (Some "Y")
  ∧ explosionReason
      <$> entity sampleChannel
            (submitAll [launch 1; explode 2 "X"; explode 3 "Y"] emptyStore)
    ≠ explosionReason
      <$> entity sampleChannel (submitAll [launch 1; explode 2 "X"] emptyStore).
Proof. vm_compute. repeat split; congruence. Qed.

(** ** The scenario 1, 3, 2 of the buffering tests *)


(** * Further properties of the message processor *)

(** ** Failures *)

(** [applyStateChange], given the stored entity of the channel, throws only
    before any write: for want of an entity, or on a payload of the wrong
    shape. *)
Lemma applyStateChange_error (st st1 : Store) (im : IncomingMessage)
    (e : Error) :
  applyStateChange (rockets st !! channel (metadata im)) im st = (st1, Err e) →
  st1 = st
  ∧ ((rockets st !! channel (metadata im) = None
      ∧ messageType (metadata im) ≠ ROCKET_LAUNCHED
      ∧ e = RocketNotFound (channel (metadata im)))
     ∨ (wellShapedMessage im = false ∧ e = PayloadShape)).
Proof.
  destruct (rockets st !! channel (metadata im)) as [r|] eqn:Hr.
  - destruct (wellShapedMessage im) eqn:Hs.
    + by rewrite applyStateChange_existing.
    + destruct im as [[ch n t ty] p]. simpl in *.
      unfold wellShapedMessage in Hs. simpl in Hs.
      destruct ty, p; simpl in Hs; try discriminate; run_monad;
        try discriminate; destruct (status r); simpl; try discriminate;
        intros [= <- <-]; split; try done; by right.
  - destruct im as [[ch n t ty] p]. simpl in *.
    destruct ty; run_monad;
      try (intros [= <- <-]; split; [done|]; left; by repeat split).
    destruct p; simpl; rewrite ?Hr; try discriminate;
      intros [= <- <-]; split; try done; by right.
Qed.

(** The five exits of [processMessage], as one case distinction. *)
Lemma processMessage_cases (im : IncomingMessage) (st : Store) :
  processMessage im st = (st, Ok DuplicateIgnored)
  ∨ processMessage im st = (st, Ok BufferedDuplicateIgnored)
  ∨ (∃ r, rockets st !! channel (metadata im) = Some r
          ∧ messageNumber (metadata im) < lastMessageNumber r
          ∧ bufferedMessages st
              !! (channel (metadata im), messageNumber (metadata im)) = None
          ∧ processMessage im st
            = (set_messages
                 (insert (channel (metadata im), messageNumber (metadata im))
                    (rowOf im)) st,
               Ok OutOfOrderAudited))
  ∨ (∃ r, rockets st !! channel (metadata im) = Some r
          ∧ lastMessageNumber r + 1 < messageNumber (metadata im)
          ∧ messages st
              !! (channel (metadata im), messageNumber (metadata im)) = None
          ∧ processMessage im st
            = (set_buffered
                 (insert (channel (metadata im), messageNumber (metadata im))
                    (rowOf im)) st,
               Ok Buffered))
  ∨ (messages st !! (channel (metadata im), messageNumber (metadata im)) = None
     ∧ bufferedMessages st
         !! (channel (metadata im), messageNumber (metadata im)) = None
     ∧ match rockets st !! channel (metadata im) with
       | None => True
       | Some r => lastMessageNumber r ≤ messageNumber (metadata im)
                   ≤ lastMessageNumber r + 1
       end
     ∧ processMessage im st
       = applyAndDrain (rockets st !! channel (metadata im)) im st).
Proof.
  destruct (messages st !! (channel (metadata im), messageNumber (metadata im)))
    as [x|] eqn:Hm.
  { left. apply processMessage_duplicate. eauto. }
  destruct (bufferedMessages st
              !! (channel (metadata im), messageNumber (metadata im)))
    as [x|] eqn:Hb.
  { right. left. apply processMessage_buffered_duplicate; eauto. }
  do 2 right.
  destruct (rockets st !! channel (metadata im)) as [r|] eqn:Hr.
  - destruct (Z.lt_ge_cases (messageNumber (metadata im)) (lastMessageNumber r)).
    { left. exists r. repeat split; try done.
      by apply (processMessage_out_of_order im st Hm Hb r). }
    destruct (Z.lt_ge_cases (lastMessageNumber r + 1)
                (messageNumber (metadata im))).
    { right. left. exists r. repeat split; try done.
      by apply (processMessage_future im st Hm Hb r). }
    do 2 right. repeat split; try done; try lia.
    rewrite <- Hr. apply processMessage_apply; try done. rewrite Hr. lia.
  - do 2 right. repeat split; try done.
    rewrite <- Hr. apply processMessage_apply; try done. by rewrite Hr.
Qed.

(** The apply branch: either the apply throws and nothing is written, or
    the message is audited and the drain runs. *)
Lemma applyAndDrain_cases (im : IncomingMessage) (st : Store) :
  messages st !! (channel (metadata im), messageNumber (metadata im)) = None →
  (∃ e, applyStateChange (rockets st !! channel (metadata im)) im st
        = (st, Err e)
        ∧ applyAndDrain (rockets st !! channel (metadata im)) im st
          = (st, Err e))
  ∨ (∃ st1 r1,
       applyStateChange (rockets st !! channel (metadata im)) im st
       = (st1, Ok r1)
       ∧ applyAndDrain (rockets st !! channel (metadata im)) im st
         = ((processBufferedMessages (channel (metadata im))
               (messageNumber (metadata im) + 1)
               (set_messages
                  (insert (channel (metadata im), messageNumber (metadata im))
                     (rowOf im)) st1)).1,
            Ok Processed)).
Proof.
  intros Hm.
  destruct (applyStateChange (rockets st !! channel (metadata im)) im st)
    as [st1 [r1|e]] eqn:Happ.
  - right. exists st1, r1. split; [done|].
    exact (applyAndDrain_applied im st Hm _ _ _ Happ).
  - left. exists e.
    destruct (applyStateChange_error st st1 im e Happ) as [-> _].
    split; [done|]. by apply applyAndDrain_failed.
Qed.

(** X1: a submission that fails has written nothing.  Whatever the store,
    for a message whose payload has the shape of its type, when
    [processMessage] throws, the store is the one it was given and the
    error is "Rocket not found" for the channel of the message; the
    controller then answers 500, and it answers 202 whenever
    [processMessage] returns. *)
Theorem failed_submission_writes_nothing (im : IncomingMessage) (st : Store) :
  wellShapedMessage im = true →
  match processMessage im st with
  | (st', Err e) =>
      st' = st
      ∧ e = RocketNotFound (channel (metadata im))
      ∧ receiveMessage im st = (st, 500)
  | (st', Ok _) => receiveMessage im st = (st', 202)
  end.
Proof.
  intros Hs. unfold receiveMessage.
  destruct (processMessage_cases im st)
    as [H | [H | [(r & _ & _ & _ & H) | [(r & _ & _ & _ & H) | (Hm & _ & _ & H)]]]];
    rewrite H; try done.
  destruct (applyAndDrain_cases im st Hm)
    as [(e & Happ & ->) | (st1 & r1 & _ & ->)]; [|done].
  destruct (applyStateChange_error st st im e Happ)
    as [_ [(_ & _ & ->) | [Hbad _]]]; [done|congruence].
Qed.

Lemma failed_submission_writes_nothing_witness :
  receiveMessage (explode 2 "X") emptyStore = (emptyStore, 500).
Proof.
  apply (failed_submission_writes_nothing (explode 2 "X") emptyStore).
  reflexivity.
Defined.

(** X2: a message of a kind other than launch, not recorded yet, for a
    channel that has no rocket fails with "Rocket not found" and writes
    nothing; and, as long as the database itself does not fail (the
    repositories of the model fail only on an existing key or a missing
    row), this is the only situation in which the submission of a message
    whose payload has the shape of its type throws. *)
Theorem update_without_rocket_is_rejected (im : IncomingMessage) (st : Store) :
  wellShapedMessage im = true →
  (messages st !! (channel (metadata im), messageNumber (metadata im)) = None →
   bufferedMessages st
     !! (channel (metadata im), messageNumber (metadata im)) = None →
   rockets st !! channel (metadata im) = None →
   messageType (metadata im) ≠ ROCKET_LAUNCHED →
   processMessage im st = (st, Err (RocketNotFound (channel (metadata im)))))
  ∧ (∀ st' e, processMessage im st = (st', Err e) →
     messages st !! (channel (metadata im), messageNumber (metadata im)) = None
     ∧ bufferedMessages st
         !! (channel (metadata im), messageNumber (metadata im)) = None
     ∧ rockets st !! channel (metadata im) = None
     ∧ messageType (metadata im) ≠ ROCKET_LAUNCHED).
Proof.
  intros Hs. split.
  - intros Hm Hb Hr Ht.
    rewrite processMessage_apply by (try done; by rewrite Hr).
    rewrite Hr. apply applyAndDrain_failed. by apply applyStateChange_absent.
  - intros st' e Hpm.
    destruct (processMessage_cases im st)
      as [H | [H | [(r & _ & _ & _ & H) | [(r & _ & _ & _ & H) | (Hm & Hb & _ & H)]]]];
      rewrite H in Hpm; try discriminate.
    destruct (applyAndDrain_cases im st Hm)
      as [(e' & Happ & Hfail) | (st1 & r1 & _ & Hok)];
      [|rewrite Hok in Hpm; discriminate].
    destruct (applyStateChange_error st st im e' Happ)
      as [_ [(Hr & Ht & _) | [Hbad _]]]; [done|congruence].
Qed.

Lemma update_without_rocket_is_rejected_witness :
  processMessage (speedUp 2 500) emptyStore
  = (emptyStore, Err (RocketNotFound sampleChannel)).
Proof.
  apply (update_without_rocket_is_rejected (speedUp 2 500) emptyStore);
    [reflexivity | apply lookup_empty | apply lookup_empty | apply lookup_empty
    | discriminate].
Defined.

(** ** The first message of a channel *)



(** ** Messages from the past *)

(** X4: a message that is not recorded yet and whose number is strictly
    below the last-applied number of the entity is written to the audit
    table and nothing else happens: the entity table and the buffer are
    untouched and no buffered message is drained. *)
Theorem stale_message_is_only_audited (im : IncomingMessage) (st : Store)
    (r : Rocket) :
  messages st !! (channel (metadata im), messageNumber (metadata im)) = None →
  bufferedMessages st !! (channel (metadata im), messageNumber (metadata im))
    = None →
  rockets st !! channel (metadata im) = Some r →
  messageNumber (metadata im) < lastMessageNumber r →
  processMessage im st
  = ({| rockets := rockets st;
        messages :=
          <[(channel (metadata im), messageNumber (metadata im)) := rowOf im]>
            (messages st);
        bufferedMessages := bufferedMessages st |},
     Ok OutOfOrderAudited).
Proof.
  intros Hm Hb Hr Hlt.
  by rewrite (processMessage_out_of_order im st Hm Hb r Hr Hlt).
Qed.

Lemma stale_message_is_only_audited_witness :
  processMessage (speedUp 3 1000) (storeWith (makeRocket 3000 ACTIVE None 5))
  = ({| rockets := {[ sampleChannel := makeRocket 3000 ACTIVE None 5 ]};
        messages := {[ (sampleChannel, 3) := rowOf (speedUp 3 1000) ]};
        bufferedMessages := ∅ |},
     Ok OutOfOrderAudited).
Proof.
  rewrite (stale_message_is_only_audited (speedUp 3 1000)
             (storeWith (makeRocket 3000 ACTIVE None 5))
             (makeRocket 3000 ACTIVE None 5));
    [| apply lookup_empty | apply lookup_empty | vm_compute; reflexivity
     | reflexivity].
  vm_compute. reflexivity.
Defined.

(** ** The audit table is append-only *)

Lemma processMessage_messages_preserved (im : IncomingMessage) (st : Store)
    (k : string * Z) (x : CreateMessageData) :
  messages st !! k = Some x →
  messages (processMessage im st).1 !! k = Some x.
Proof.
  intros Hk.
  destruct (processMessage_cases im st)
    as [H | [H | [(r & _ & _ & _ & H) | [(r & _ & _ & Hm & H) | (Hm & _ & _ & H)]]]];
    rewrite H; simpl; try done.
  - destruct (decide (k = (channel (metadata im), messageNumber (metadata im))))
      as [->|Hne].
    + rewrite processMessage_duplicate in H by eauto. discriminate.
    + by rewrite lookup_insert_ne.
  - destruct (applyAndDrain_cases im st Hm)
      as [(e & _ & ->) | (st1 & r1 & Happ & ->)]; [done|].
    simpl. apply drain_messages_preserved. simpl.
    destruct (applyStateChange_frame st (rockets st !! channel (metadata im)) im)
      as [Hfm _].
    rewrite Happ in Hfm. simpl in Hfm. rewrite Hfm.
    rewrite lookup_insert_ne; [done|]. intros <-. congruence.
Qed.

(** X5: the audit table is append-only.  No submission, whichever exit it
    takes and whatever it drains, removes or changes an audit row: a row
    that is in the table is there, unchanged, after any sequence of
    submissions. *)
Theorem audit_rows_are_permanent (ims : list IncomingMessage) (st : Store)
    (k : string * Z) (x : CreateMessageData) :
  messages st !! k = Some x →
  messages (submitAll ims st) !! k = Some x.
Proof.
  revert st. induction ims as [|im ims IH]; intros st Hk; [done|].
  simpl. apply IH. by apply processMessage_messages_preserved.
Qed.

Lemma audit_rows_are_permanent_witness :
  messages
    (submitAll [speedUp 3 1000; speedUp 2 500; explode 4 "X"; launch 1]
       (submitAll [launch 1] emptyStore))
    !! (sampleChannel, 1)
  = Some (rowOf (launch 1)).
Proof.
  apply (audit_rows_are_permanent
           [speedUp 3 1000; speedUp 2 500; explode 4 "X"; launch 1]
           (submitAll [launch 1] emptyStore)).
  vm_compute. reflexivity.
Defined.

(** ** Entities are never deleted and never go back *)

Lemma applyStateChange_step (st : Store) (im : IncomingMessage) (r : Rocket) :
  rockets st !! channel (metadata im) = Some r →
  rockets (applyStateChange (Some r) im st).1 = rockets st
  ∨ rockets (applyStateChange (Some r) im st).1
    = <[channel (metadata im) := transition r im]> (rockets st).
Proof.
  intros Hr.
  destruct (applyStateChange_rockets st im)
    as [H | [(r0 & Hr0 & H) | (t & s & m & Hr0 & _)]].
  - left. by rewrite Hr in H.
  - right. assert (r0 = r) as -> by congruence. done.
  - congruence.
Qed.

Lemma transition_stamp (r : Rocket) (im : IncomingMessage) :
  rocketType (transition r im) = rocketType r
  ∧ (lastMessageNumber (transition r im) = lastMessageNumber r
     ∨ lastMessageNumber (transition r im) = messageNumber (metadata im)).
Proof.
  destruct im as [[ch n t ty] p], r as [rt rs rm rst rr rl rtm].
  unfold transition. simpl.
  destruct ty, rst, p; simpl; auto.
Qed.

Lemma neverRegresses_refl (m : gmap string Rocket) : neverRegresses m m.
Proof. intros ch r Hr. exists r. by repeat split. Qed.

Lemma neverRegresses_trans (m1 m2 m3 : gmap string Rocket) :
  neverRegresses m1 m2 → neverRegresses m2 m3 → neverRegresses m1 m3.
Proof.
  intros H12 H23 ch r Hr.
  destruct (H12 ch r Hr) as (r2 & Hr2 & Ht2 & Hl2).
  destruct (H23 ch r2 Hr2) as (r3 & Hr3 & Ht3 & Hl3).
  exists r3. repeat split; [done|congruence|lia].
Qed.

(** Writing [transition] over a row whose last-applied number is not above
    the number of the message. *)
Lemma neverRegresses_transition (m : gmap string Rocket) (r : Rocket)
    (im : IncomingMessage) :
  m !! channel (metadata im) = Some r →
  lastMessageNumber r ≤ messageNumber (metadata im) →
  neverRegresses m (<[channel (metadata im) := transition r im]> m).
Proof.
  intros Hr Hle ch r' Hr'.
  destruct (decide (ch = channel (metadata im))) as [->|Hne].
  - assert (r' = r) as -> by congruence.
    exists (transition r im). rewrite lookup_insert_eq.
    destruct (transition_stamp r im) as [Ht [Hl|Hl]]; repeat split; try done; lia.
  - exists r'. rewrite lookup_insert_ne by done. by repeat split.
Qed.

Lemma drain_neverRegresses (f : nat) (ch : string) :
  ∀ (n : Z) (st : Store),
    (∀ r, rockets st !! ch = Some r → lastMessageNumber r < n) →
    neverRegresses (rockets st) (rockets (drain f ch n st).1).
Proof.
  induction f as [|f IH]; intros n st Hlt; [apply neverRegresses_refl|].
  rewrite drain_unfold.
  destruct (bufferedMessages st !! (ch, n)) as [b|];
    [|apply neverRegresses_refl].
  destruct (rockets st !! ch) as [r|] eqn:Hr; [|apply neverRegresses_refl].
  pose proof (Hlt r eq_refl) as Hr_lt.
  assert (Hstep : neverRegresses (rockets st)
                    (rockets (applyStateChange (Some r) (reconstruct ch n b) st).1)
                  ∧ ∀ r', rockets (applyStateChange (Some r)
                                     (reconstruct ch n b) st).1 !! ch = Some r' →
                          lastMessageNumber r' < n + 1).
  { destruct (applyStateChange_step st (reconstruct ch n b) r Hr) as [-> | ->].
    - split; [apply neverRegresses_refl|].
      intros r' Hr'. assert (r' = r) as -> by congruence. lia.
    - split.
      + apply (neverRegresses_transition _ r (reconstruct ch n b)); [done|].
        simpl. lia.
      + simpl. intros r'. rewrite lookup_insert_eq. intros [= <-].
        destruct (transition_stamp r (reconstruct ch n b)) as [_ [Hl|Hl]];
          simpl in Hl; lia. }
  destruct (applyStateChange (Some r) (reconstruct ch n b) st) as [st1 [r1|e]];
    simpl in Hstep; destruct Hstep as [Hreg Hlt1]; [|exact Hreg].
  destruct (messages st1 !! (ch, n)); [exact Hreg|].
  eapply neverRegresses_trans; [exact Hreg|].
  apply (IH (n + 1)
           (set_buffered (delete (ch, n)) (set_messages (insert (ch, n) b) st1))).
  exact Hlt1.
Qed.

Lemma processMessage_neverRegresses (im : IncomingMessage) (st : Store) :
  neverRegresses (rockets st) (rockets (processMessage im st).1).
Proof.
  destruct (processMessage_cases im st)
    as [H | [H | [(r & _ & _ & _ & H) | [(r & _ & _ & _ & H) | (Hm & _ & Hord & H)]]]];
    rewrite H; simpl; try apply neverRegresses_refl.
  destruct (applyAndDrain_cases im st Hm)
    as [(e & _ & ->) | (st1 & r1 & Happ & ->)]; [apply neverRegresses_refl|].
  simpl.
  assert (Hstep : neverRegresses (rockets st) (rockets st1)
                  ∧ ∀ r', rockets st1 !! channel (metadata im) = Some r' →
                          lastMessageNumber r' < messageNumber (metadata im) + 1).
  { destruct (applyStateChange_rockets st im)
      as [Hsame | [(r0 & Hr0 & Hw) | (t & s & m & Hr0 & Hw)]].
    - rewrite Happ in Hsame. simpl in Hsame. rewrite Hsame.
      split; [apply neverRegresses_refl|].
      intros r' Hr'. rewrite Hr' in Hord. lia.
    - rewrite Hr0 in Happ, Hord. rewrite Happ in Hw. simpl in Hw. rewrite Hw.
      split.
      + apply neverRegresses_transition; [done|lia].
      + intros r'. rewrite lookup_insert_eq. intros [= <-].
        destruct (transition_stamp r0 im) as [_ [Hl|Hl]]; lia.
    - rewrite Hr0 in Happ. rewrite Happ in Hw. simpl in Hw. rewrite Hw.
      split.
      + intros ch r Hr. exists r. rewrite lookup_insert_ne by congruence.
        by repeat split.
      + intros r'. rewrite lookup_insert_eq. intros [= <-]. simpl. lia. }
  destruct Hstep as [Hreg Hlt].
  eapply neverRegresses_trans; [exact Hreg|].
  apply (drain_neverRegresses _ (channel (metadata im))
           (messageNumber (metadata im) + 1)
           (set_messages
              (insert (channel (metadata im), messageNumber (metadata im))
                 (rowOf im)) st1)).
  exact Hlt.
Qed.

(** X6: entities are never deleted and never go back.  After any sequence
    of submissions a rocket that was in the entity table is still there,
    with the type it was launched with and a last-applied number that is
    not smaller than before. *)
Theorem last_applied_never_decreases (ims : list IncomingMessage) (st : Store)
    (ch : string) (r : Rocket) :
  rockets st !! ch = Some r →
  ∃ r', entity ch (submitAll ims st) = Some r'
        ∧ rocketType r' = rocketType r
        ∧ lastMessageNumber r ≤ lastMessageNumber r'.
Proof.
  assert (H : ∀ st', neverRegresses (rockets st') (rockets (submitAll ims st'))).
  { induction ims as [|im ims IH]; intros st'; [apply neverRegresses_refl|].
    simpl. eapply neverRegresses_trans; [apply processMessage_neverRegresses|].
    apply IH. }
  intros Hr. exact (H st ch r Hr).
Qed.

Lemma last_applied_never_decreases_witness :
  ∃ r', entity sampleChannel
          (submitAll [speedUp 1 7; launch 9; explode 4 "X"; changeMission 3 "M"]
             (storeWith (makeRocket 500 ACTIVE None 3)))
        = Some r'
        ∧ rocketType r' = "Falcon-9"
        ∧ 3 ≤ lastMessageNumber r'.
Proof.
  apply (last_applied_never_decreases
           [speedUp 1 7; launch 9; explode 4 "X"; changeMission 3 "M"]
           (storeWith (makeRocket 500 ACTIVE None 3)) sampleChannel
           (makeRocket 500 ACTIVE None 3)).
  vm_compute. reflexivity.
Defined.

(** ** Invariants kept by every submission *)

(** What [applyStateChange] does, given the stored entity of the channel:
    it throws and writes nothing, or it leaves [transition] for the stored
    row, or it creates the launched row. *)
Lemma applyStateChange_outcome (st : Store) (im : IncomingMessage) :
  (∃ e, applyStateChange (rockets st !! channel (metadata im)) im st
        = (st, Err e))
  ∨ (∃ r, rockets st !! channel (metadata im) = Some r
          ∧ applyStateChange (rockets st !! channel (metadata im)) im st
            = (set_rockets (insert (channel (metadata im)) (transition r im)) st,
               Ok (transition r im)))
  ∨ (∃ t s m, rockets st !! channel (metadata im) = None
              ∧ messageType (metadata im) = ROCKET_LAUNCHED
              ∧ message im = RocketLaunchedPayload t s m
              ∧ applyStateChange (rockets st !! channel (metadata im)) im st
                = (set_rockets
                     (insert (channel (metadata im)) (launched im t s m)) st,
                   Ok (launched im t s m))).
Proof.
  destruct (rockets st !! channel (metadata im)) as [r|] eqn:Hr.
  - destruct (wellShapedMessage im) eqn:Hs.
    + right. left. exists r. split; [done|].
      by apply applyStateChange_existing.
    + destruct im as [[ch n t ty] p], r as [rt rs rm rst rr rl rtm].
      simpl in *. unfold wellShapedMessage in Hs. simpl in Hs.
      destruct ty, p; simpl in Hs; try discriminate;
        unfold transition; run_monad; destruct rst; simpl;
        first [ left; eexists; reflexivity
              | right; left; eexists; split; [reflexivity|];
                rewrite set_rockets_insert_id by done; reflexivity ].
  - destruct im as [[ch n t ty] p]. simpl in *.
    destruct ty; run_monad; try (left; eexists; reflexivity).
    destruct p; simpl; try (left; eexists; reflexivity).
    right. right. do 3 eexists. rewrite Hr. by repeat split.
Qed.

Section Satisfies.
Variable P : Rocket → Prop.
Variable Q : IncomingMessage → Prop.
Hypothesis P_transition : ∀ r im, P r → Q im → P (transition r im).
Hypothesis P_launched : ∀ im t s m,
  Q im → message im = RocketLaunchedPayload t s m → P (launched im t s m).

Lemma applyStateChange_satisfies (st : Store) (im : IncomingMessage) :
  storeSatisfies P Q st →
  Q im →
  storeSatisfies P Q
    (applyStateChange (rockets st !! channel (metadata im)) im st).1.
Proof.
  intros [HP HQ] Him.
  destruct (applyStateChange_outcome st im)
    as [(e & ->) | [(r0 & Hr0 & ->) | (t & s & m & Hr0 & _ & Hpl & ->)]];
    [done| |]; (split; [|exact HQ]); simpl; intros ch r;
    (destruct (decide (ch = channel (metadata im))) as [->|Hne];
     [rewrite lookup_insert_eq; intros [= <-]
     |rewrite lookup_insert_ne by done; apply HP]).
  - apply P_transition; [|done]. by apply (HP _ _ Hr0).
  - by apply P_launched.
Qed.

Lemma drain_satisfies (f : nat) (ch : string) :
  ∀ (n : Z) (st : Store),
    storeSatisfies P Q st → storeSatisfies P Q (drain f ch n st).1.
Proof.
  induction f as [|f IH]; intros n st Hst; [done|].
  assert (Hdel : ∀ st', storeSatisfies P Q st' →
            storeSatisfies P Q (set_buffered (delete (ch, n)) st')).
  { intros st' [HP HQ]. split; [exact HP|]. simpl. intros c k b Hb.
    apply HQ. by apply lookup_delete_Some in Hb as [_ Hb]. }
  rewrite drain_unfold.
  destruct (bufferedMessages st !! (ch, n)) as [b|] eqn:Hb; [|done].
  destruct (rockets st !! ch) as [r|] eqn:Hr; [|by apply Hdel].
  pose proof (applyStateChange_satisfies st (reconstruct ch n b) Hst) as Happ.
  simpl in Happ. rewrite Hr in Happ.
  specialize (Happ (proj2 Hst ch n b Hb)).
  destruct (applyStateChange (Some r) (reconstruct ch n b) st) as [st1 [r1|e]];
    simpl in Happ; [|done].
  destruct (messages st1 !! (ch, n)); [done|].
  apply IH. apply Hdel. by destruct Happ.
Qed.

Lemma processMessage_satisfies (im : IncomingMessage) (st : Store) :
  storeSatisfies P Q st → Q im → storeSatisfies P Q (processMessage im st).1.
Proof.
  intros Hst Him.
  destruct (processMessage_cases im st)
    as [H | [H | [(r & _ & _ & _ & H) | [(r & _ & _ & _ & H) | (Hm & _ & _ & H)]]]];
    rewrite H; simpl; try done.
  - destruct Hst as [HP HQ]. split; [exact HP|]. simpl. intros c k b.
    destruct (decide ((c, k)
                = (channel (metadata im), messageNumber (metadata im))))
      as [[= -> ->]|Hne].
    + rewrite lookup_insert_eq. intros [= <-]. by rewrite reconstruct_rowOf.
    + rewrite lookup_insert_ne by done. apply HQ.
  - pose proof (applyStateChange_satisfies st im Hst Him) as Happ.
    destruct (applyAndDrain_cases im st Hm)
      as [(e & _ & ->) | (st1 & r1 & Heq & ->)]; [done|].
    rewrite Heq in Happ. simpl in *.
    apply drain_satisfies. by destruct Happ.
Qed.

Lemma submitAll_satisfies (ims : list IncomingMessage) :
  ∀ st, Forall Q ims → storeSatisfies P Q st →
        storeSatisfies P Q (submitAll ims st).
Proof.
  induction ims as [|im ims IH]; intros st Hall Hst; [done|].
  apply Forall_cons in Hall as [Him Hall].
  simpl. apply IH; [done|]. by apply processMessage_satisfies.
Qed.
End Satisfies.

Lemma emptyStore_satisfies (P : Rocket → Prop) (Q : IncomingMessage → Prop) :
  storeSatisfies P Q emptyStore.
Proof.
  split; simpl; intros *; by rewrite lookup_empty.
Qed.

(** X7: the terminal-reason is present exactly on exploded rockets, and an
    exploded rocket has speed 0: this holds for every rocket of a store
    that submissions reach from the empty store, whatever the messages and
    their order, provided each has the payload of its type. *)
Theorem reached_rockets_are_consistent (ims : list IncomingMessage)
    (ch : string) (r : Rocket) :
  Forall (λ im, wellShapedMessage im = true) ims →
  entity ch (submitAll ims emptyStore) = Some r →
  (status r = EXPLODED ↔ is_Some (explosionReason r))
  ∧ (status r = EXPLODED → currentSpeed r = 0).
Proof.
  intros Hall Hr.
  assert (Hc : rocketConsistent r).
  { refine (proj1 (submitAll_satisfies rocketConsistent
                     (λ im, wellShapedMessage im = true) _ _
                     ims emptyStore Hall (emptyStore_satisfies _ _)) ch r Hr).
    - intros [rt rs rm rst rr rl rtm] [[c n t ty] p] Hc Hq.
      unfold rocketConsistent, transition, wellShapedMessage in *.
      simpl in *.
      destruct ty, rst, p; simpl in *; try done; by eauto.
    - intros. unfold rocketConsistent. done. }
  unfold rocketConsistent in Hc.
  destruct (status r); [|destruct Hc as [Hsome Hzero]].
  - rewrite Hc. split; [split; [done|by intros [? ?]]|done].
  - split; [split; done|done].
Qed.

Lemma reached_rockets_are_consistent_witness :
  (EXPLODED = EXPLODED ↔ is_Some (Some "X")) ∧ (EXPLODED = EXPLODED → 0 = 0).
Proof.
  exact (reached_rockets_are_consistent
           [launch 1; speedUp 2 500; explode 3 "X"] sampleChannel
           (transition
              (transition (launched (launch 1) "Falcon-9" 500 "ARTEMIS")
                 (speedUp 2 500))
              (explode 3 "X"))
           ltac:(repeat constructor)
           ltac:(vm_compute; reflexivity)).
Defined.

(** X8: a message is never both buffered and audited: in every store that
    submissions reach from the empty store, a (channel, number) that has a
    buffered row has no audit row. *)
Theorem buffered_messages_are_not_audited (ims : list IncomingMessage)
    (k : string * Z) :
  is_Some (bufferedMessages (submitAll ims emptyStore) !! k) →
  messages (submitAll ims emptyStore) !! k = None.
Proof.
  apply (submitAll_invariants ims emptyStore);
    apply emptyStore_invariants.
Qed.

Lemma buffered_messages_are_not_audited_witness :
  messages (submitAll [launch 1; speedUp 3 1000; speedUp 5 1] emptyStore)
    !! (sampleChannel, 3)
  = None.
Proof.
  apply (buffered_messages_are_not_audited
           [launch 1; speedUp 3 1000; speedUp 5 1] (sampleChannel, 3)).
  vm_compute. eauto.
Defined.

(** X9: speed is never negative.  When every submitted message has the
    payload of its type, and one that the validation schemas accept (launch
    speed not negative, speed changes positive), every rocket of the store
    reached from the empty store has a current speed of at least 0. *)
Theorem speed_is_never_negative (ims : list IncomingMessage) (ch : string)
    (r : Rocket) :
  Forall (λ im, wellShapedMessage im = true
                ∧ messageSchema (message im) = true) ims →
  entity ch (submitAll ims emptyStore) = Some r →
  0 ≤ currentSpeed r.
Proof.
  intros Hall Hr.
  refine (proj1 (submitAll_satisfies (λ r, 0 ≤ currentSpeed r)
                   (λ im, wellShapedMessage im = true
                          ∧ messageSchema (message im) = true) _ _
                   ims emptyStore Hall (emptyStore_satisfies _ _)) ch r Hr).
  - intros [rt rs rm rst rr rl rtm] [[c n t ty] p] Hc [_ Hq].
    unfold transition, Number_add. simpl in *.
    destruct ty, rst, p; simpl in *; try done; try lia;
      apply toNumber_sign; lia.
  - intros im t s m [_ Hq] Hp. rewrite Hp in Hq. simpl in *.
    apply andb_prop in Hq as [Hq _]. apply andb_prop in Hq as [_ Hs]. lia.
Qed.

Lemma speed_is_never_negative_witness :
  0 ≤ currentSpeed
        (transition (launched (launch 1) "Falcon-9" 500 "ARTEMIS")
           (slowDown 2 1000)).
Proof.
  apply (speed_is_never_negative [launch 1; slowDown 2 1000] sampleChannel).
  - repeat constructor.
  - vm_compute. reflexivity.
Defined.

(** ** Channels are independent *)

Lemma sameChannel_refl (ch : string) (st : Store) : sameChannel ch st st.
Proof. by repeat split. Qed.

Lemma sameChannel_trans (ch : string) (s1 s2 s3 : Store) :
  sameChannel ch s1 s2 → sameChannel ch s2 s3 → sameChannel ch s1 s3.
Proof.
  intros (Hr1 & Hm1 & Hb1) (Hr2 & Hm2 & Hb2).
  split; [congruence|]. split; intros n; [rewrite Hm2|rewrite Hb2]; done.
Qed.

Lemma applyStateChange_sameChannel (st : Store) (im : IncomingMessage)
    (ch : string) :
  ch ≠ channel (metadata im) →
  sameChannel ch st
    (applyStateChange (rockets st !! channel (metadata im)) im st).1.
Proof.
  intros Hne.
  destruct (applyStateChange_outcome st im)
    as [(e & ->) | [(r0 & Hr0 & ->) | (t & s & m & Hr0 & _ & _ & ->)]];
    [apply sameChannel_refl| |];
    (split; [simpl; by rewrite lookup_insert_ne|by split]).
Qed.

Lemma drain_sameChannel (f : nat) (ch ch' : string) :
  ch' ≠ ch →
  ∀ (n : Z) (st : Store), sameChannel ch' st (drain f ch n st).1.
Proof.
  intros Hne. induction f as [|f IH]; intros n st; [apply sameChannel_refl|].
  assert (Hkey : ∀ k, (ch', k) ≠ (ch, n)) by (intros k [= ? ?]; done).
  rewrite drain_unfold.
  destruct (bufferedMessages st !! (ch, n)) as [b|];
    [|apply sameChannel_refl].
  destruct (rockets st !! ch) as [r|] eqn:Hr.
  - pose proof (applyStateChange_sameChannel st (reconstruct ch n b) ch' Hne)
      as Happ.
    simpl in Happ. rewrite Hr in Happ.
    destruct (applyStateChange (Some r) (reconstruct ch n b) st)
      as [st1 [r1|e]]; simpl in Happ; [|exact Happ].
    destruct (messages st1 !! (ch, n)); [exact Happ|].
    eapply sameChannel_trans; [exact Happ|].
    eapply sameChannel_trans; [|apply (IH (n + 1))].
    split; [done|]. split; intros k; simpl.
    + by rewrite lookup_insert_ne.
    + by rewrite lookup_delete_ne.
  - split; [done|]. split; intros k; simpl; [done|].
    by rewrite lookup_delete_ne.
Qed.

Lemma processMessage_sameChannel (im : IncomingMessage) (st : Store)
    (ch : string) :
  ch ≠ channel (metadata im) →
  sameChannel ch st (processMessage im st).1.
Proof.
  intros Hne.
  assert (Hkey : ∀ k, (channel (metadata im), messageNumber (metadata im))
                      ≠ (ch, k)) by (intros k [= ? ?]; done).
  destruct (processMessage_cases im st)
    as [H | [H | [(r & _ & _ & _ & H) | [(r & _ & _ & _ & H) | (Hm & _ & _ & H)]]]];
    rewrite H; simpl; try apply sameChannel_refl.
  - split; [done|]. split; intros k; simpl; [|done].
    by rewrite lookup_insert_ne.
  - split; [done|]. split; intros k; simpl; [done|].
    by rewrite lookup_insert_ne.
  - pose proof (applyStateChange_sameChannel st im ch Hne) as Happ.
    destruct (applyAndDrain_cases im st Hm)
      as [(e & _ & ->) | (st1 & r1 & Heq & ->)]; [apply sameChannel_refl|].
    rewrite Heq in Happ. simpl in *.
    eapply sameChannel_trans; [exact Happ|].
    eapply sameChannel_trans; [|by apply drain_sameChannel].
    split; [done|]. split; intros k; simpl; [|done].
    by rewrite lookup_insert_ne.
Qed.

(** X10: channels are independent.  Submissions for other channels, in any
    number and with any outcome (drains and failures included), leave every
    row of a channel as it is: its entity, its audit rows and its buffered
    rows. *)
Theorem other_channels_are_untouched (ims : list IncomingMessage) (st : Store)
    (ch : string) :
  Forall (λ im, channel (metadata im) ≠ ch) ims →
  entity ch (submitAll ims st) = entity ch st
  ∧ (∀ n, messages (submitAll ims st) !! (ch, n) = messages st !! (ch, n))
  ∧ (∀ n, bufferedMessages (submitAll ims st) !! (ch, n)
          = bufferedMessages st !! (ch, n)).
Proof.
  revert st. induction ims as [|im ims IH]; intros st Hall; [done|].
  apply Forall_cons in Hall as [Him Hall].
  apply (sameChannel_trans ch st (processMessage im st).1).
  - apply processMessage_sameChannel. congruence.
  - apply (IH _ Hall).
Qed.

Lemma other_channels_are_untouched_witness :
  entity "other"
    (submitAll [launch 1; speedUp 3 1000; speedUp 2 500; explode 9 "X"]
       {| rockets := {[ "other" := makeRocket 42 ACTIVE None 7 ]};
          messages := ∅; bufferedMessages := ∅ |})
  = entity "other"
      {| rockets := {[ "other" := makeRocket 42 ACTIVE None 7 ]};
         messages := ∅; bufferedMessages := ∅ |}.
Proof.
  apply (other_channels_are_untouched
           [launch 1; speedUp 3 1000; speedUp 2 500; explode 9 "X"]
           {| rockets := {[ "other" := makeRocket 42 ACTIVE None 7 ]};
              messages := ∅; bufferedMessages := ∅ |} "other").
  repeat constructor; discriminate.
Defined.

(** ** The drain ends *)

Lemma drain_buffer_shrinks (f : nat) (ch : string) :
  ∀ (n : Z) (st : Store),
    (size (bufferedMessages (drain f ch n st).1)
     ≤ size (bufferedMessages st))%nat.
Proof.
  induction f as [|f IH]; intros n st; [done|].
  rewrite drain_unfold.
  destruct (bufferedMessages st !! (ch, n)) as [b|] eqn:Hb; [|done].
  pose proof (size_delete_buffered _ _ _ Hb) as Hsz.
  destruct (rockets st !! ch) as [r|]; [|simpl; lia].
  destruct (applyStateChange_frame st (Some r) (reconstruct ch n b)) as [_ Hfb].
  destruct (applyStateChange (Some r) (reconstruct ch n b) st) as [st1 [r1|e]];
    simpl in Hfb; [|simpl; by rewrite Hfb].
  destruct (messages st1 !! (ch, n)); [simpl; by rewrite Hfb|].
  etransitivity; [apply IH|]. simpl. rewrite Hfb. lia.
Qed.

(** X12: the recursion of [processBufferedMessages] ends after at most as
    many nested calls as there are buffered rows: bounding the nesting by
    any number above the size of the buffer gives the same store as the
    unbounded drain, and the drain never adds a row to the buffer. *)
Theorem drain_nesting_is_bounded (f : nat) (ch : string) (n : Z) (st : Store) :
  (size (bufferedMessages st) < f)%nat →
  drain f ch n st = processBufferedMessages ch n st
  ∧ (size (bufferedMessages (processBufferedMessages ch n st).1)
     ≤ size (bufferedMessages st))%nat.
Proof.
  intros Hf. split.
  - unfold processBufferedMessages. apply drain_fuel; lia.
  - apply drain_buffer_shrinks.
Qed.

Lemma drain_nesting_is_bounded_witness :
  drain 3 sampleChannel 2
    (submitAll [launch 1; speedUp 3 1000; speedUp 4 1] emptyStore)
  = processBufferedMessages sampleChannel 2
      (submitAll [launch 1; speedUp 3 1000; speedUp 4 1] emptyStore).
Proof.
  apply (drain_nesting_is_bounded 3 sampleChannel 2
           (submitAll [launch 1; speedUp 3 1000; speedUp 4 1] emptyStore)).
  vm_compute. lia.
Defined.

(** ** A consumed number that did not advance the entity *)

(** X13: when the numbers last-applied and last-applied + 1 of a channel
    both have an audit row (the second one was consumed by a message that
    did not advance the entity: an update ignored on an exploded rocket, or
    a launch for a rocket that exists), no later submission changes the
    entity of the channel: every later number is a duplicate, stale, or
    buffered for ever. *)
Theorem consumed_number_freezes_entity (ims : list IncomingMessage)
    (st : Store) (ch : string) (r : Rocket) :
  rockets st !! ch = Some r →
  is_Some (messages st !! (ch, lastMessageNumber r)) →
  is_Some (messages st !! (ch, lastMessageNumber r + 1)) →
  entity ch (submitAll ims st) = Some r.
Proof.
  revert st. induction ims as [|im ims IH]; intros st Hr [x Hx] [y Hy];
    [done|].
  simpl. apply IH.
  - destruct (decide (channel (metadata im) = ch)) as [Hch|Hne].
    + destruct (processMessage_cases im st)
        as [H | [H | [(r0 & _ & _ & _ & H) | [(r0 & _ & _ & _ & H)
                     | (Hm & _ & Hord & H)]]]];
        rewrite ?H; simpl; try done.
      rewrite Hch, Hr in Hord.
      assert (messageNumber (metadata im) = lastMessageNumber r
              ∨ messageNumber (metadata im) = lastMessageNumber r + 1)
        as [Hn|Hn] by lia; rewrite Hch, Hn in Hm; congruence.
    + destruct (processMessage_sameChannel im st ch) as [Hsame _];
        [congruence|]. by rewrite Hsame.
  - exists x. by apply processMessage_messages_preserved.
  - exists y. by apply processMessage_messages_preserved.
Qed.

Lemma consumed_number_freezes_entity_witness :
  entity sampleChannel
    (submitAll [explode 4 "Y"; speedUp 5 1; changeMission 3 "M"; launch 6]
       (submitAll [launch 1; explode 2 "X"; speedUp 3 999] emptyStore))
  = Some (transition (launched (launch 1) "Falcon-9" 500 "ARTEMIS")
            (explode 2 "X")).
Proof.
  apply (consumed_number_freezes_entity
           [explode 4 "Y"; speedUp 5 1; changeMission 3 "M"; launch 6]
           (submitAll [launch 1; explode 2 "X"; speedUp 3 999] emptyStore)
           sampleChannel);
    vm_compute; eauto.
Defined.

(** ** Updates of an active rocket *)

(** X18: applied to an ACTIVE rocket, a speed increase adds [by] to the
    speed when the sum is at most [Number.MAX_SAFE_INTEGER] in magnitude
    (the range in which the addition of the code is exact), a mission
    change replaces the mission, and an explosion sets the status to
    EXPLODED, the terminal-reason to the reason of the message and the
    speed to 0; each of them stamps the number and the time of the message
    as last-applied and leaves every other attribute as it was. *)
Theorem active_rocket_update (st : Store) (im : IncomingMessage) (r : Rocket) :
  rockets st !! channel (metadata im) = Some r →
  status r = ACTIVE →
  (∀ b, messageType (metadata im) = ROCKET_SPEED_INCREASED →
        message im = RocketSpeedIncreasedPayload b →
        Z.abs (currentSpeed r + b) ≤ MAX_SAFE_INTEGER →
        entity (channel (metadata im)) (applyStateChange (Some r) im st).1
        = Some {| rocketType := rocketType r;
                  currentSpeed := currentSpeed r + b;
                  rocketMission := rocketMission r;
                  status := ACTIVE;
                  explosionReason := explosionReason r;
                  lastMessageNumber := messageNumber (metadata im);
                  lastMessageTime := messageTime (metadata im) |})
  ∧ (∀ m, messageType (metadata im) = ROCKET_MISSION_CHANGED →
          message im = RocketMissionChangedPayload m →
          entity (channel (metadata im)) (applyStateChange (Some r) im st).1
          = Some {| rocketType := rocketType r;
                    currentSpeed := currentSpeed r;
                    rocketMission := m;
                    status := ACTIVE;
                    explosionReason := explosionReason r;
                    lastMessageNumber := messageNumber (metadata im);
                    lastMessageTime := messageTime (metadata im) |})
  ∧ (∀ reason, messageType (metadata im) = ROCKET_EXPLODED →
               message im = RocketExplodedPayload reason →
               entity (channel (metadata im)) (applyStateChange (Some r) im st).1
               = Some {| rocketType := rocketType r;
                         currentSpeed := 0;
                         rocketMission := rocketMission r;
                         status := EXPLODED;
                         explosionReason := Some reason;
                         lastMessageNumber := messageNumber (metadata im);
                         lastMessageTime := messageTime (metadata im) |}).
Proof.
  intros Hr Hact.
  destruct im as [[ch n t ty] p], r as [rt rs rm rst rr rl rtm].
  simpl in *. subst rst. unfold entity.
  split; [|split].
  - intros b -> -> Hsafe. run_monad. rewrite Hr. simpl.
    rewrite lookup_insert_eq. unfold Number_add.
    by rewrite (toNumber_safe _ Hsafe).
  - intros m -> ->. run_monad. rewrite Hr. simpl.
    by rewrite lookup_insert_eq.
  - intros reason -> ->. run_monad. rewrite Hr. simpl.
    by rewrite lookup_insert_eq.
Qed.

Lemma active_rocket_update_witness :
  entity sampleChannel
    (applyStateChange (Some (makeRocket 500 ACTIVE None 1)) (speedUp 2 3000)
       (storeWith (makeRocket 500 ACTIVE None 1))).1
  = Some {| rocketType := "Falcon-9"; currentSpeed := 3500;
            rocketMission := "ARTEMIS"; status := ACTIVE;
            explosionReason := None; lastMessageNumber := 2;
            lastMessageTime := messageTime (metadata (speedUp 2 3000)) |}.
Proof.
  destruct (active_rocket_update (storeWith (makeRocket 500 ACTIVE None 1))
              (speedUp 2 3000) (makeRocket 500 ACTIVE None 1))
    as [Hinc _]; [vm_compute; reflexivity | reflexivity |].
  apply (Hinc 3000 eq_refl eq_refl). vm_compute. discriminate.
Defined.

(** * The rocket API *)

(** ** Statistics: the counts *)

Lemma length_filter_status (l : list Rocket) :
  (length (filter (λ r, matchesWhere (Some ACTIVE) r = true) l)
   + length (filter (λ r, matchesWhere (Some EXPLODED) r = true) l)
   = length l)%nat.
Proof.
  induction l as [|r l IH]; [done|].
  rewrite !filter_cons. simpl.
  destruct (status r); repeat case_decide; simpl in *;
    try (rewrite bool_decide_eq_true in *); try discriminate;
    try congruence; try lia;
    exfalso; match goal with H : ¬ _ |- _ => apply H end;
    by rewrite bool_decide_eq_true.
Qed.

(** X14: the counts of the statistics add up: [total] is the number of
    rows of the entity table, and it is the sum of [active] and
    [exploded]. *)
Theorem statistics_counts_add_up (st : Store) :
  total (getRocketStatistics st) = Z.of_nat (size (rockets st))
  ∧ total (getRocketStatistics st)
    = active (getRocketStatistics st) + exploded (getRocketStatistics st).
Proof.
  unfold getRocketStatistics, RocketStatistics.count, selectRockets. simpl.
  assert (Hall : filter (λ r : Rocket, true = true)
                   ((map_to_list (rockets st)).*2)
                 = (map_to_list (rockets st)).*2).
  { induction ((map_to_list (rockets st)).*2) as [|r l IH]; [done|].
    rewrite filter_cons_True by done. by rewrite IH. }
  rewrite Hall, length_fmap, length_map_to_list. split; [done|].
  rewrite <- Nat2Z.inj_add, length_filter_status.
  by rewrite length_fmap, length_map_to_list.
Qed.

(** ** Listing: the page parameters *)

(** X15: whatever [parseInt] returns for the [page] and [pageSize] of the
    query string, the page is at least 1 and the page size is between 1
    and 100; a missing, unparsable or zero value gives page 1 and page size
    50, a negative one gives 1, a page size above 100 gives 100, and a
    value within the bounds is taken as it is. *)
Theorem page_parameters_are_clamped (parsed : option Z) :
  1 ≤ pageOf parsed
  ∧ 1 ≤ pageSizeOf parsed ≤ 100
  ∧ (parsed = None ∨ parsed = Some 0 →
     pageOf parsed = 1 ∧ pageSizeOf parsed = 50)
  ∧ (∀ v, parsed = Some v → v < 0 → pageOf parsed = 1 ∧ pageSizeOf parsed = 1)
  ∧ (∀ v, parsed = Some v → 100 < v → pageSizeOf parsed = 100)
  ∧ (∀ v, parsed = Some v → 1 ≤ v → pageOf parsed = v)
  ∧ (∀ v, parsed = Some v → 1 ≤ v ≤ 100 → pageSizeOf parsed = v).
Proof.
  unfold pageOf, pageSizeOf, orDefault.
  destruct parsed as [v|]; [destruct (Z.eqb_spec v 0)|];
    repeat split; intros; destruct_or?; simplify_eq; lia.
Qed.

(** ** Listing: the number of pages *)

Lemma totalPagesOf_ceiling (t d : Z) :
  0 < d → totalPagesOf t d = - ((- t) / d).
Proof.
  intros Hd. destruct d as [|d|d]; try lia.
  unfold totalPagesOf, Qceiling, Qfloor, Qopp, Qdiv, Qmult, Qinv, inject_Z.
  simpl. f_equal. f_equal; lia.
Qed.

Lemma total_pages_cover_total_aux (t d : Z) :
  0 ≤ t →
  1 ≤ d →
  t ≤ totalPagesOf t d * d
  ∧ (totalPagesOf t d - 1) * d < t
  ∧ 0 ≤ totalPagesOf t d.
Proof.
  intros Ht Hd. rewrite totalPagesOf_ceiling by lia.
  pose proof (Z.mul_div_le (- t) d ltac:(lia)).
  pose proof (Z.mul_succ_div_gt (- t) d ltac:(lia)).
  repeat split; nia.
Qed.

(** X16: for a page size of at least 1, [totalPages] is the least number of
    pages that hold [total] rows: [totalPages] pages are enough and one
    page fewer is not; it is 0 exactly when there is no row. *)
Theorem total_pages_cover_total (t d : Z) :
  0 ≤ t →
  1 ≤ d →
  t ≤ totalPagesOf t d * d
  ∧ (totalPagesOf t d - 1) * d < t
  ∧ 0 ≤ totalPagesOf t d
  ∧ (totalPagesOf t d = 0 ↔ t = 0).
Proof.
  intros Ht Hd. rewrite totalPagesOf_ceiling by lia.
  pose proof (Z.mul_div_le (- t) d ltac:(lia)).
  pose proof (Z.mul_succ_div_gt (- t) d ltac:(lia)).
  repeat split; try nia.
Qed.

Lemma total_pages_cover_total_witness :
  101 ≤ totalPagesOf 101 50 * 50 ∧ (totalPagesOf 101 50 - 1) * 50 < 101.
Proof.
  destruct (total_pages_cover_total 101 50) as (H1 & H2 & _); [lia | lia |].
  exact (conj H1 H2).
Defined.

Lemma page_parameters_are_clamped_witness :
  pageSizeOf (Some 250) = 100 ∧ pageOf (Some (-3)) = 1.
Proof.
  split.
  - destruct (page_parameters_are_clamped (Some 250))
      as (_ & _ & _ & _ & H & _).
    apply (H 250); [reflexivity | lia].
  - destruct (page_parameters_are_clamped (Some (-3)))
      as (_ & _ & _ & H & _).
    apply (H (-3)); [reflexivity | lia].
Defined.

(** ** Listing: the pages *)

Lemma pages_concat {A} (l : list A) (n : nat) :
  ∀ k : nat,
    concat ((λ i : nat, take n (drop (i * n) l)) <$> seq 0 k) = take (k * n) l.
Proof.
  induction k as [|k IH]; [done|].
  rewrite seq_S, fmap_app, concat_app, IH. simpl.
  rewrite app_nil_r, take_take_drop. f_equal. lia.
Qed.

Lemma count_selectRows (w : option RocketStatus) (st : Store) :
  RocketStatistics.count w st = Z.of_nat (length (selectRows w st)).
Proof.
  unfold RocketStatistics.count, selectRockets, selectRows. f_equal.
  induction (map_to_list (rockets st)) as [|[c r] l IH]; [done|].
  rewrite fmap_cons, !filter_cons. simpl.
  destruct (decide (matchesWhere w r = true)); simpl; by rewrite IH.
Qed.

Lemma pageData_slice
    (dbOrder : SortBy → SortOrder → list (string * Rocket) → list (string * Rocket))
    (sortBy : option SortBy) (order : option SortOrder)
    (parsedPageSize : option Z) (w : option RocketStatus) (st : Store) (i : nat) :
  pageData dbOrder sortBy order parsedPageSize w st (Z.of_nat i + 1)
  = take (Z.to_nat (pageSizeOf parsedPageSize))
      (drop (i * Z.to_nat (pageSizeOf parsedPageSize))
         (dbOrder (default ByCreatedAt sortBy) (default Desc order)
            (selectRows w st))).
Proof.
  unfold pageData, listRocketsResponse, getAllRockets, findMany. simpl.
  assert (Hp : pageOf (Some (Z.of_nat i + 1)) = Z.of_nat i + 1).
  { unfold pageOf, orDefault. destruct (Z.eqb_spec (Z.of_nat i + 1) 0); lia. }
  rewrite Hp. do 2 f_equal.
  assert (1 ≤ pageSizeOf parsedPageSize)
    by (unfold pageSizeOf; lia).
  rewrite Z2Nat.inj_mul by lia. f_equal. lia.
Qed.

(** X17: the pages of a listing partition it.  For any page size that the
    controller derives from the query string, and any order in which the
    database returns the selected rockets, the pages 1, 2, ...,
    [totalPages], one after the other, are exactly the selected rockets in
    that order; no page holds more than [pageSize] rockets, every page
    beyond [totalPages] is empty, and [total] is the number of selected
    rockets. *)
Theorem pages_partition_listing
    (dbOrder : SortBy → SortOrder → list (string * Rocket) → list (string * Rocket))
    (sortBy : option SortBy) (order : option SortOrder)
    (parsedPageSize : option Z) (w : option RocketStatus) (st : Store) :
  (∀ s o l, dbOrder s o l ≡ₚ l) →
  concat
    ((λ i : nat,
        pageData dbOrder sortBy order parsedPageSize w st (Z.of_nat i + 1))
       <$> seq 0
             (Z.to_nat
                (paginationTotalPages
                   (listRocketsResponse dbOrder sortBy order None
                      parsedPageSize w st))))
  = dbOrder (default ByCreatedAt sortBy) (default Desc order) (selectRows w st)
  ∧ (∀ i : nat,
       Z.of_nat
         (length
            (pageData dbOrder sortBy order parsedPageSize w st (Z.of_nat i + 1)))
       ≤ pageSizeOf parsedPageSize)
  ∧ (∀ i : nat,
       paginationTotalPages
         (listRocketsResponse dbOrder sortBy order None parsedPageSize w st)
       ≤ Z.of_nat i →
       pageData dbOrder sortBy order parsedPageSize w st (Z.of_nat i + 1) = [])
  ∧ paginationTotal
      (listRocketsResponse dbOrder sortBy order None parsedPageSize w st)
    = Z.of_nat (length (selectRows w st)).
Proof.
  intros Hperm.
  set (L := dbOrder (default ByCreatedAt sortBy) (default Desc order)
              (selectRows w st)).
  set (ps := pageSizeOf parsedPageSize).
  assert (Hps : 1 ≤ ps) by (unfold ps, pageSizeOf; lia).
  assert (Hlen : length L = length (selectRows w st))
    by (unfold L; by rewrite Hperm).
  assert (Htp : paginationTotalPages
                  (listRocketsResponse dbOrder sortBy order None
                     parsedPageSize w st)
                = totalPagesOf (Z.of_nat (length L)) ps).
  { unfold listRocketsResponse, getAllRockets. simpl.
    by rewrite count_selectRows, Hlen. }
  rewrite Htp.
  destruct (total_pages_cover_total_aux (Z.of_nat (length L)) ps)
    as (Hcover & _ & Hnonneg); [lia | lia |].
  repeat split.
  - assert (Hpages : ∀ k : nat,
              (λ i : nat,
                 pageData dbOrder sortBy order parsedPageSize w st
                   (Z.of_nat i + 1)) <$> seq 0 k
              = (λ i : nat, take (Z.to_nat ps) (drop (i * Z.to_nat ps) L))
                  <$> seq 0 k).
    { intros k. apply Forall_fmap_ext, Forall_forall. intros i _.
      apply pageData_slice. }
    rewrite Hpages, pages_concat. apply take_ge. nia.
  - intros i. rewrite pageData_slice, length_take. fold ps. lia.
  - intros i Hi. rewrite pageData_slice. fold L ps.
    rewrite drop_ge; [by rewrite take_nil|]. nia.
  - unfold listRocketsResponse, getAllRockets. simpl.
    apply count_selectRows.
Qed.

Lemma pages_partition_listing_witness :
  concat
    ((λ i : nat,
        pageData (λ _ _ l, l) None None (Some 2) None sampleFleet
          (Z.of_nat i + 1))
       <$> seq 0
             (Z.to_nat
                (paginationTotalPages
                   (listRocketsResponse (λ _ _ l, l) None None None (Some 2)
                      None sampleFleet))))
  = selectRows None sampleFleet.
Proof.
  apply (pages_partition_listing (λ _ _ l, l) None None (Some 2) None
           sampleFleet).
  intros s o l. reflexivity.
Defined.

(** * Accepted messages are kept *)

(** The drain of a channel that has a rocket keeps every recorded message
    recorded: a row leaves the buffer only after its audit row is written
    (the deletion of an orphaned row needs a channel without a rocket). *)
Lemma drain_recorded (f : nat) (ch : string) (c : string) (k : Z) :
  ∀ (n : Z) (st : Store),
    is_Some (rockets st !! ch) →
    recorded c k st → recorded c k (drain f ch n st).1.
Proof.
  induction f as [|f IH]; intros n st Hsome Hrec; [done|].
  rewrite drain_unfold.
  destruct (bufferedMessages st !! (ch, n)) as [b|] eqn:Hb; [|done].
  destruct Hsome as [r Hr]. rewrite Hr.
  destruct (applyStateChange_frame st (Some r) (reconstruct ch n b))
    as [Hfm Hfb].
  pose proof (applyStateChange_stored st) as Hstored.
  specialize (Hstored (applyStateChange (Some r) (reconstruct ch n b) st).1
                (reconstruct ch n b)).
  simpl in Hstored. rewrite Hr in Hstored.
  destruct (applyStateChange (Some r) (reconstruct ch n b) st) as [st1 [r1|e]];
    simpl in Hfm, Hfb, Hstored.
  - assert (Hrec1 : recorded c k st1).
    { unfold recorded. by rewrite Hfm, Hfb. }
    destruct (messages st1 !! (ch, n)) eqn:Hn; [done|].
    apply IH; simpl.
    + rewrite (Hstored r1 eq_refl). eauto.
    + unfold recorded. simpl.
      destruct (decide ((c, k) = (ch, n))) as [->|Hne].
      * left. rewrite lookup_insert_eq. eauto.
      * rewrite lookup_insert_ne, lookup_delete_ne by done. exact Hrec1.
  - unfold recorded. simpl. by rewrite Hfm, Hfb.
Qed.

Lemma processMessage_keeps_recorded (im : IncomingMessage) (st : Store)
    (c : string) (k : Z) :
  recorded c k st → recorded c k (processMessage im st).1.
Proof.
  intros Hrec.
  assert (Hins : ∀ (m : gmap (string * Z) CreateMessageData) key x,
            is_Some (m !! (c, k)) → is_Some (<[key := x]> m !! (c, k))).
  { intros m key x Hs. destruct (decide (key = (c, k))) as [->|Hne].
    - rewrite lookup_insert_eq. eauto.
    - by rewrite lookup_insert_ne. }
  destruct (processMessage_cases im st)
    as [H | [H | [(r & _ & _ & _ & H) | [(r & _ & _ & _ & H) | (Hm & _ & _ & H)]]]];
    rewrite H; simpl; try done.
  - destruct Hrec as [Hrec|Hrec]; [left|right]; simpl; [by apply Hins|done].
  - destruct Hrec as [Hrec|Hrec]; [left|right]; simpl; [done|by apply Hins].
  - destruct (applyAndDrain_cases im st Hm)
      as [(e & _ & ->) | (st1 & r1 & Happ & ->)]; [done|].
    simpl. apply drain_recorded.
    + simpl. rewrite (applyStateChange_stored _ _ _ _ Happ). eauto.
    + destruct (applyStateChange_frame st (rockets st !! channel (metadata im)) im)
        as [Hfm Hfb].
      rewrite Happ in Hfm, Hfb. simpl in Hfm, Hfb.
      destruct Hrec as [Hrec|Hrec]; [left|right]; simpl.
      * rewrite Hfm. by apply Hins.
      * by rewrite Hfb.
Qed.

Lemma submitAll_keeps_recorded (ims : list IncomingMessage) (c : string)
    (k : Z) :
  ∀ st, recorded c k st → recorded c k (submitAll ims st).
Proof.
  induction ims as [|im ims IH]; intros st Hrec; [done|].
  simpl. apply IH. by apply processMessage_keeps_recorded.
Qed.

(** X21: an accepted message is never lost.  Once [processMessage] has
    returned normally for a message, the message has an audit row or a
    buffered row in the store, and it still has one after any further
    submissions, of whatever messages for whatever channels: the drain
    removes a buffered row only once its audit row is written. *)
Theorem accepted_message_is_never_lost (im : IncomingMessage) (st st' : Store)
    (o : Outcome) (ims : list IncomingMessage) :
  processMessage im st = (st', Ok o) →
  recorded (channel (metadata im)) (messageNumber (metadata im))
    (submitAll ims st').
Proof.
  intros Hpm. apply submitAll_keeps_recorded.
  exact (processMessage_recorded st st' im o Hpm).
Qed.

Lemma accepted_message_is_never_lost_witness :
  recorded sampleChannel 3
    (submitAll [speedUp 5 10; launch 1; speedUp 2 10]
       (processMessage (speedUp 3 500)
          (storeWith (makeRocket 0 ACTIVE None 1))).1).
Proof.
  apply (accepted_message_is_never_lost (speedUp 3 500)
           (storeWith (makeRocket 0 ACTIVE None 1)) _ Buffered
           [speedUp 5 10; launch 1; speedUp 2 10]).
  vm_compute. reflexivity.
Defined.

(** * Buffered messages are ahead of their rocket *)

Section Ahead.
Variable Q : IncomingMessage → Prop.
Variable d : Z.
Hypothesis d_range :
  d = 0 ∨ (d = 1 ∧ ∀ im, Q im → wellShapedMessage im = true).

Lemma drain_ahead (f : nat) (ch : string) :
  ∀ (n : Z) (st : Store),
    (size (bufferedMessages st) < f)%nat →
    bufferUnaudited st →
    storeSatisfies (λ _, True) Q st →
    drainReady d ch n st →
    aheadBy d (drain f ch n st).1.
Proof.
  induction f as [|f IH]; intros n st Hsz Hun HQ (Hroc & Hlow & Hoth); [lia|].
  destruct Hroc as (r & Hr & Hlt).
  assert (Hd : d ≤ 1) by (destruct d_range as [->|[-> _]]; lia).
  assert (Hstop : (∀ k b, bufferedMessages st !! (ch, k) = Some b → n + d ≤ k) →
                  aheadBy d st).
  { intros Hrows c k b Hb. destruct (decide (c = ch)) as [->|Hne].
    - exists r. split; [done|]. specialize (Hrows k b Hb). lia.
    - by apply (Hoth c k b). }
  rewrite drain_unfold.
  destruct (bufferedMessages st !! (ch, n)) as [b|] eqn:Hb.
  - rewrite Hr.
    pose proof (applyStateChange_outcome st (reconstruct ch n b)) as Hout.
    simpl in Hout. rewrite Hr in Hout.
    destruct Hout as [(e & Happ) | [(r0 & [= <-] & ->) | (? & ? & ? & ? & _)]];
      [|clear Hstop|done].
    + rewrite Happ. apply Hstop. intros k b' Hb'.
      destruct d_range as [->|[_ Hshape]]; [specialize (Hlow k b' Hb'); lia|].
      rewrite (applyStateChange_existing st r (reconstruct ch n b) Hr
                 (Hshape _ (proj2 HQ ch n b Hb))) in Happ.
      discriminate.
    + simpl. rewrite (Hun (ch, n)) by eauto.
      pose proof (size_delete_buffered _ _ _ Hb) as Hsize.
      apply IH; simpl.
      * lia.
      * intros k. simpl.
        destruct (decide (k = (ch, n))) as [->|Hne].
        -- rewrite lookup_delete_eq. by intros [? ?].
        -- rewrite lookup_delete_ne, lookup_insert_ne by done. apply Hun.
      * split; [done|]. simpl. intros c k b' Hb'.
        apply lookup_delete_Some in Hb' as [_ Hb']. by apply (proj2 HQ c k b').
      * repeat split; simpl.
        -- exists (transition r (reconstruct ch n b)).
           rewrite lookup_insert_eq. split; [done|].
           destruct (transition_stamp r (reconstruct ch n b)) as [_ [Hl|Hl]];
             rewrite Hl; simpl; lia.
        -- intros k b' Hb'. apply lookup_delete_Some in Hb' as [Hne Hb'].
           specialize (Hlow k b' Hb').
           assert (k ≠ n) by congruence. lia.
        -- intros c k b' Hne Hb'. apply lookup_delete_Some in Hb' as [_ Hb'].
           rewrite lookup_insert_ne by done. by apply (Hoth c k b').
  - apply Hstop. intros k b' Hb'. specialize (Hlow k b' Hb').
    assert (k ≠ n) by congruence. lia.
Qed.
Lemma processMessage_ahead (im : IncomingMessage) (st : Store) :
  bufferUnaudited st →
  storeSatisfies (λ _, True) Q st →
  aheadBy d st →
  Q im →
  aheadBy d (processMessage im st).1.
Proof.
  intros Hun HQ Hah Him.
  assert (Hd : 0 ≤ d ≤ 1) by (destruct d_range as [->|[-> _]]; lia).
  destruct (processMessage_cases im st)
    as [H | [H | [(r & _ & _ & _ & H)
                 | [(r & Hr & Hgap & _ & H) | (Hm & Hb & Hord & H)]]]];
    rewrite H; simpl; try done.
  - intros c k b. simpl.
    destruct (decide ((c, k)
                = (channel (metadata im), messageNumber (metadata im))))
      as [[= -> ->]|Hne].
    + intros _. exists r. split; [done|lia].
    + rewrite lookup_insert_ne by done. apply Hah.
  - destruct (applyAndDrain_cases im st Hm)
      as [(e & _ & ->) | (st1 & r1 & Happ & ->)]; [done|].
    simpl.
    assert (Hst1 : ∃ r',
              st1 = set_rockets (insert (channel (metadata im)) r') st
              ∧ lastMessageNumber r' < messageNumber (metadata im) + 1
              ∧ ∀ k b, bufferedMessages st !! (channel (metadata im), k)
                       = Some b →
                       messageNumber (metadata im) + 1 ≤ k).
    { destruct (applyStateChange_outcome st im)
        as [(e & He) | [(r0 & Hr0 & Hw) | (t & s & m & Hr0 & _ & _ & Hw)]];
        rewrite Happ in *; [discriminate| |].
      - injection Hw as -> _. exists (transition r0 im).
        rewrite Hr0 in Hord. split; [done|]. split.
        + destruct (transition_stamp r0 im) as [_ [Hl|Hl]]; lia.
        + intros k b Hk. destruct (Hah _ _ _ Hk) as (r & Hr & Hlt).
          assert (r = r0) as -> by congruence.
          assert (k ≠ messageNumber (metadata im)) by congruence. lia.
      - injection Hw as -> _. exists (launched im t s m).
        split; [done|]. split; [simpl; lia|].
        intros k b Hk. destruct (Hah _ _ _ Hk) as (r & Hr & _). congruence. }
    destruct Hst1 as (r' & -> & Hlt & Hrows).
    unfold processBufferedMessages. apply drain_ahead.
    + lia.
    + intros k. simpl. intros Hk.
      rewrite lookup_insert_ne; [by apply Hun|].
      intros <-. rewrite Hb in Hk. by destruct Hk.
    + split; [done|]. exact (proj2 HQ).
    + repeat split; simpl.
      * exists r'. by rewrite lookup_insert_eq.
      * exact Hrows.
      * intros c k b Hne. rewrite lookup_insert_ne by done. apply Hah.
Qed.

Lemma submitAll_ahead (ims : list IncomingMessage) :
  ∀ st, Forall Q ims →
        bufferUnaudited st →
        storeSatisfies (λ _, True) Q st →
        aheadBy d st →
        aheadBy d (submitAll ims st).
Proof.
  induction ims as [|im ims IH]; intros st Hall Hun HQ Hah; [done|].
  apply Forall_cons in Hall as [Him Hall].
  simpl. apply IH; [done| | |].
  - by apply processMessage_unaudited.
  - by apply processMessage_satisfies.
  - by apply processMessage_ahead.
Qed.
End Ahead.

(** X22: a buffered message is always ahead of its rocket.  In every store
    that submissions reach from the empty one, a buffered message belongs
    to a channel that has a rocket and its number is above the
    last-applied number of that rocket; when every submitted message has
    the payload of its type, the number is at least two above it, so the
    message that is next in line is never left in the buffer. *)
Theorem buffered_messages_are_ahead (ims : list IncomingMessage)
    (ch : string) (n : Z) (b : CreateMessageData) :
  bufferedMessages (submitAll ims emptyStore) !! (ch, n) = Some b →
  ∃ r, entity ch (submitAll ims emptyStore) = Some r
       ∧ lastMessageNumber r < n
       ∧ (Forall (λ im, wellShapedMessage im = true) ims →
          lastMessageNumber r + 1 < n).
Proof.
  intros Hb.
  assert (Hempty : ∀ d, aheadBy d emptyStore).
  { intros d c k x Hx. simpl in Hx. by rewrite lookup_empty in Hx. }
  assert (Hweak : aheadBy 0 (submitAll ims emptyStore)).
  { apply (submitAll_ahead (λ _, True) 0 (or_introl eq_refl) ims emptyStore);
      [by apply Forall_forall | apply emptyStore_invariants
      | apply emptyStore_satisfies | apply Hempty]. }
  destruct (Hweak ch n b Hb) as (r & Hr & Hlt).
  exists r. split; [done|]. split; [lia|].
  intros Hall.
  assert (Hstrong : aheadBy 1 (submitAll ims emptyStore)).
  { apply (submitAll_ahead (λ im, wellShapedMessage im = true) 1
             (or_intror (conj eq_refl (λ _ H, H))) ims emptyStore);
      [exact Hall | apply emptyStore_invariants
      | apply emptyStore_satisfies | apply Hempty]. }
  destruct (Hstrong ch n b Hb) as (r' & Hr' & Hlt').
  assert (r' = r) as -> by congruence. done.
Qed.

Lemma buffered_messages_are_ahead_witness :
  ∃ r, entity sampleChannel
         (submitAll [launch 1; speedUp 4 10; speedUp 3 500] emptyStore)
       = Some r
       ∧ lastMessageNumber r < 4
       ∧ (Forall (λ im, wellShapedMessage im = true)
            [launch 1; speedUp 4 10; speedUp 3 500] →
          lastMessageNumber r + 1 < 4).
Proof.
  apply (buffered_messages_are_ahead
           [launch 1; speedUp 4 10; speedUp 3 500] sampleChannel 4
           (rowOf (speedUp 4 10))).
  vm_compute. reflexivity.
Defined.

(** * Submissions for different channels commute *)

(** [applyStateChange] reads the store only at the row of the channel: on
    two stores with the same row it throws the same error, or writes the
    same row. *)
Lemma applyStateChange_local (st st' : Store) (im : IncomingMessage) :
  rockets st' !! channel (metadata im) = rockets st !! channel (metadata im) →
  (∃ e, applyStateChange (rockets st !! channel (metadata im)) im st
        = (st, Err e)
        ∧ applyStateChange (rockets st' !! channel (metadata im)) im st'
          = (st', Err e))
  ∨ (∃ r', applyStateChange (rockets st !! channel (metadata im)) im st
           = (set_rockets (insert (channel (metadata im)) r') st, Ok r')
           ∧ applyStateChange (rockets st' !! channel (metadata im)) im st'
             = (set_rockets (insert (channel (metadata im)) r') st', Ok r')).
Proof.
  intros Heq. rewrite Heq.
  destruct (rockets st !! channel (metadata im)) as [r|] eqn:Hr.
  - destruct (wellShapedMessage im) eqn:Hs.
    + right. exists (transition r im).
      split; by apply applyStateChange_existing.
    + destruct im as [[ch n t ty] p], r as [rt rs rm rst rr rl rtm].
      simpl in *. unfold wellShapedMessage in Hs. simpl in Hs.
      destruct ty, p; simpl in Hs; try discriminate;
        run_monad; destruct rst; simpl;
        first [ left; eexists; split; reflexivity
              | right; eexists; split;
                rewrite set_rockets_insert_id by eassumption; reflexivity ].
  - destruct im as [[ch n t ty] p]. simpl in *.
    destruct ty; run_monad; try (left; eexists; split; reflexivity).
    destruct p; simpl; try (left; eexists; split; reflexivity).
    right. rewrite Hr, Heq. eexists. split; reflexivity.
Qed.

Lemma sameChannel_sym (ch : string) (st st' : Store) :
  sameChannel ch st st' → sameChannel ch st' st.
Proof. intros (H1 & H2 & H3). by repeat split. Qed.

Lemma sameChannel_write (ch : string) (st st' : Store) (r : Rocket) :
  sameChannel ch st st' →
  sameChannel ch (set_rockets (insert ch r) st) (set_rockets (insert ch r) st').
Proof.
  intros (H1 & H2 & H3). split; [|by split].
  simpl. by rewrite !lookup_insert_eq.
Qed.

Lemma sameChannel_audit (ch : string) (st st' : Store) (k : string * Z)
    (x : CreateMessageData) :
  sameChannel ch st st' →
  sameChannel ch (set_messages (insert k x) st) (set_messages (insert k x) st').
Proof.
  intros (H1 & H2 & H3). split; [done|]. split; [|done].
  intros n. simpl. rewrite !lookup_insert. by rewrite H2.
Qed.

Lemma sameChannel_buffer (ch : string) (st st' : Store) (k : string * Z)
    (x : CreateMessageData) :
  sameChannel ch st st' →
  sameChannel ch (set_buffered (insert k x) st) (set_buffered (insert k x) st').
Proof.
  intros (H1 & H2 & H3). split; [done|]. split; [done|].
  intros n. simpl. rewrite !lookup_insert. by rewrite H3.
Qed.

Lemma sameChannel_unbuffer (ch : string) (st st' : Store) (k : string * Z) :
  sameChannel ch st st' →
  sameChannel ch (set_buffered (delete k) st) (set_buffered (delete k) st').
Proof.
  intros (H1 & H2 & H3). split; [done|]. split; [done|].
  intros n. simpl. rewrite !lookup_delete. by rewrite H3.
Qed.

(** The drain of a channel reads and writes only the rows of the channel:
    on two stores with the same rows for the channel it leaves the same
    rows for the channel. *)
Lemma drain_local (f : nat) (ch : string) :
  ∀ (n : Z) (st st' : Store),
    sameChannel ch st st' →
    sameChannel ch (drain f ch n st).1 (drain f ch n st').1.
Proof.
  induction f as [|f IH]; intros n st st' Hs; [done|].
  rewrite !drain_unfold.
  pose proof Hs as (H1 & H2 & H3).
  rewrite (H3 n), H1.
  destruct (bufferedMessages st !! (ch, n)) as [b|]; [|done].
  destruct (rockets st !! ch) as [r|] eqn:Hr;
    [|by apply sameChannel_unbuffer].
  pose proof (applyStateChange_local st st' (reconstruct ch n b)) as Hloc.
  simpl in Hloc. rewrite H1, Hr in Hloc.
  destruct (Hloc eq_refl) as [(e & -> & ->) | (r' & -> & ->)]; [done|].
  simpl. rewrite (H2 n).
  destruct (messages st !! (ch, n)); [by apply sameChannel_write|].
  apply IH.
  by apply sameChannel_unbuffer, sameChannel_audit, sameChannel_write.
Qed.

Lemma processBufferedMessages_local (ch : string) (n : Z) (st st' : Store) :
  sameChannel ch st st' →
  sameChannel ch (processBufferedMessages ch n st).1
    (processBufferedMessages ch n st').1.
Proof.
  intros Hs.
  set (f := S (size (bufferedMessages st) `max` size (bufferedMessages st'))).
  rewrite <- (processBufferedMessages_fuel f ch n st) by (unfold f; lia).
  rewrite <- (processBufferedMessages_fuel f ch n st') by (unfold f; lia).
  by apply drain_local.
Qed.

(** [processMessage] reads and writes only the rows of the channel of the
    message: on two stores with the same rows for that channel it takes
    the same exit and leaves the same rows for the channel. *)
Lemma processMessage_local (im : IncomingMessage) (st st' : Store) :
  sameChannel (channel (metadata im)) st st' →
  (processMessage im st').2 = (processMessage im st).2
  ∧ sameChannel (channel (metadata im))
      (processMessage im st).1 (processMessage im st').1.
Proof.
  intros Hs. pose proof Hs as (H1 & H2 & H3).
  specialize (H2 (messageNumber (metadata im))).
  specialize (H3 (messageNumber (metadata im))).
  destruct (messages st !! (channel (metadata im), messageNumber (metadata im)))
    as [x|] eqn:Hm.
  { rewrite !processMessage_duplicate by (rewrite ?H2; eauto). done. }
  destruct (bufferedMessages st
              !! (channel (metadata im), messageNumber (metadata im)))
    as [x|] eqn:Hb.
  { rewrite !processMessage_buffered_duplicate by (rewrite ?H2, ?H3; eauto).
    done. }
  assert (Happly :
    match rockets st !! channel (metadata im) with
    | None => True
    | Some r => lastMessageNumber r ≤ messageNumber (metadata im)
                ≤ lastMessageNumber r + 1
    end →
    (processMessage im st').2 = (processMessage im st).2
    ∧ sameChannel (channel (metadata im))
        (processMessage im st).1 (processMessage im st').1).
  { intros Hord.
    rewrite (processMessage_apply im st Hm Hb Hord).
    rewrite (processMessage_apply im st' H2 H3) by (by rewrite H1).
    destruct (applyStateChange_local st st' im H1)
      as [(e & Ha & Ha') | (r' & Ha & Ha')].
    - rewrite (applyAndDrain_failed im st _ _ _ Ha).
      rewrite (applyAndDrain_failed im st' _ _ _ Ha'). done.
    - rewrite (applyAndDrain_applied im st Hm _ _ _ Ha).
      rewrite (applyAndDrain_applied im st' H2 _ _ _ Ha').
      split; [done|]. simpl.
      by apply processBufferedMessages_local, sameChannel_audit,
        sameChannel_write. }
  destruct (rockets st !! channel (metadata im)) as [r|] eqn:Hr;
    [|by apply Happly].
  destruct (Z.lt_ge_cases (messageNumber (metadata im)) (lastMessageNumber r)).
  { rewrite (processMessage_out_of_order im st Hm Hb r) by done.
    rewrite (processMessage_out_of_order im st' H2 H3 r) by done.
    split; [done|]. by apply sameChannel_audit. }
  destruct (Z.lt_ge_cases (lastMessageNumber r + 1) (messageNumber (metadata im))).
  { rewrite (processMessage_future im st Hm Hb r) by done.
    rewrite (processMessage_future im st' H2 H3 r) by done.
    split; [done|]. by apply sameChannel_buffer. }
  apply Happly. lia.
Qed.

(** Two stores with the same rows for every channel are the same store. *)
Lemma sameChannel_all (st st' : Store) :
  (∀ ch, sameChannel ch st st') → st = st'.
Proof.
  intros H. apply Store_eq; apply map_eq.
  - intros ch. symmetry. apply (H ch).
  - intros [ch n]. symmetry. apply (H ch).
  - intros [ch n]. symmetry. apply (H ch).
Qed.

(** X11: submissions for different channels commute.  Whatever the store
    and the two messages, when their channels differ, submitting them in
    either order leaves the same store, and each submission takes the exit
    (duplicate, audited as stale, buffered, processed, or the error) that
    it would have taken had it been submitted alone. *)
Theorem submissions_on_different_channels_commute (im1 im2 : IncomingMessage)
    (st : Store) :
  channel (metadata im1) ≠ channel (metadata im2) →
  (processMessage im2 (processMessage im1 st).1).1
  = (processMessage im1 (processMessage im2 st).1).1
  ∧ (processMessage im1 (processMessage im2 st).1).2 = (processMessage im1 st).2
  ∧ (processMessage im2 (processMessage im1 st).1).2 = (processMessage im2 st).2.
Proof.
  intros Hne.
  pose proof (processMessage_sameChannel im2 st (channel (metadata im1)) Hne)
    as H21.
  pose proof (processMessage_sameChannel im1 st (channel (metadata im2))
                (not_eq_sym Hne)) as H12.
  destruct (processMessage_local im1 st (processMessage im2 st).1 H21)
    as [Ho1 Hs1].
  destruct (processMessage_local im2 st (processMessage im1 st).1 H12)
    as [Ho2 Hs2].
  split; [|by split].
  apply sameChannel_all. intros ch.
  destruct (decide (ch = channel (metadata im1))) as [->|Hc1].
  - eapply sameChannel_trans; [|exact Hs1].
    by apply sameChannel_sym, processMessage_sameChannel.
  - destruct (decide (ch = channel (metadata im2))) as [->|Hc2].
    + eapply sameChannel_trans; [apply sameChannel_sym; exact Hs2|].
      by apply processMessage_sameChannel.
    + eapply sameChannel_trans;
        [apply sameChannel_sym, processMessage_sameChannel; exact Hc2|].
      eapply sameChannel_trans;
        [apply sameChannel_sym, processMessage_sameChannel; exact Hc1|].
      eapply sameChannel_trans; [by apply processMessage_sameChannel|].
      by apply processMessage_sameChannel.
Qed.

Lemma submissions_on_different_channels_commute_witness :
  (processMessage (onChannel "b" (launch 1))
     (processMessage (speedUp 2 10) (storeWith (makeRocket 0 ACTIVE None 1))).1).1
  = (processMessage (speedUp 2 10)
       (processMessage (onChannel "b" (launch 1))
          (storeWith (makeRocket 0 ACTIVE None 1))).1).1.
Proof.
  apply (submissions_on_different_channels_commute (speedUp 2 10)
           (onChannel "b" (launch 1)) (storeWith (makeRocket 0 ACTIVE None 1))).
  vm_compute. discriminate.
Defined.
